(** * FoldersPreferencesProvider: registry reconciliation and precedence

    A shallow embedding of
    [packages/preferences/src/browser/folders-preferences-provider.ts].

    The class keeps one [FolderPreferenceProvider] per configuration file
    of every workspace root in a JavaScript [Map] (insertion ordered), and
    answers preference queries for a resource by ranking those providers.

    The collaborators that live in other packages ([URI], [Path], the
    per-file provider, the factory) are taken as parameters:
    [UriOps] for the URI algebra and [Collaborators] for what a provider
    answers in a given state of the outside world. *)

From stdpp Require Import base option list gmap strings.
From Stdlib Require Import Ascii ZArith Lia.

Local Open Scope Z_scope.

(** ** JavaScript [Map] and [Set] with insertion order *)

Module JsMap.
Section Ops.
Context {K V : Type} `{EqDecision K}.

(** [m.get(k)] *)
Fixpoint get (k : K) (m : list (K * V)) : option V :=
  match m with
  | [] => None
  | (k', v) :: m' => if decide (k = k') then Some v else get k m'
  end.

(** [m.has(k)] *)
Definition has (k : K) (m : list (K * V)) : bool :=
  match get k m with Some _ => true | None => false end.

(** [m.set(k, v)]: an existing key keeps its position, a new key goes
    last. *)
Fixpoint set (k : K) (v : V) (m : list (K * V)) : list (K * V) :=
  match m with
  | [] => [(k, v)]
  | (k', v') :: m' =>
      if decide (k = k') then (k, v) :: m' else (k', v') :: set k v m'
  end.

(** [m.delete(k)] *)
Fixpoint delete (k : K) (m : list (K * V)) : list (K * V) :=
  match m with
  | [] => []
  | (k', v') :: m' =>
      if decide (k = k') then delete k m' else (k', v') :: delete k m'
  end.

(** [m.keys()] and [m.values()], in insertion order *)
Definition keys (m : list (K * V)) : list K := m.*1.
Definition values (m : list (K * V)) : list V := m.*2.

(** The representation invariant of a [Map]: no key occurs twice. *)
Definition wf (m : list (K * V)) : Prop := NoDup (keys m).
End Ops.
End JsMap.

Module JsSet.
Section Ops.
Context {K : Type} `{EqDecision K}.

(** [s.delete(k)] *)
Fixpoint delete (k : K) (s : list K) : list K :=
  match s with
  | [] => []
  | k' :: s' => if decide (k = k') then delete k s' else k' :: delete k s'
  end.
End Ops.
End JsSet.

(** ** The URI algebra of [@theia/core] *)

Class UriOps := {
  URI : Type;
  Path : Type;
  (** [new URI(s)] *)
  URI_new : string → URI;
  (** [u.resolve(segment)] *)
  URI_resolve : URI → string → URI;
  (** [u.toString()] *)
  URI_toString : URI → string;
  (** [u.parent] *)
  URI_parent : URI → URI;
  (** [u.path] *)
  URI_path : URI → Path;
  (** [folderPath.relativity(resourcePath)] *)
  Path_relativity : Path → Path → Z
}.

(** ** Data *)

(** A workspace root as [tryGetRoots] hands it out; only [uri] is read. *)
Record WorkspaceFolder := { uri : string }.

(** [FolderPreferenceProviderOptions] *)
Record FolderPreferenceProviderOptions `{UriOps} := {
  folder : WorkspaceFolder;
  configUri : URI
}.

(** A provider object: what the factory was given, and [oid], the identity
    of the object (two calls of the factory give two objects). *)
Record FolderPreferenceProvider `{UriOps} := {
  oid : nat;
  options : FolderPreferenceProviderOptions
}.

(** What [toDispose] collects in [createProvider]. *)
Inductive Disposable `{UriOps} :=
  | DProvider (p : FolderPreferenceProvider)
  | DListener (p : FolderPreferenceProvider).

(** What a reconciliation does to the outside, in the order it does it. *)
Inductive Event `{UriOps} :=
  | EvFactory (p : FolderPreferenceProvider)
  | EvSet (key : string) (p : FolderPreferenceProvider)
  | EvDelete (key : string)
  | EvDispose (p : FolderPreferenceProvider).

(** The mutable fields of the class; [allocated] counts the objects the
    factory has handed out. *)
Record FoldersState `{UriOps} := {
  providers : list (string * FolderPreferenceProvider);
  toDispose : list Disposable;
  allocated : nat
}.

(** The state during one run of [updateProviders]. *)
Record Recon `{UriOps} := {
  r_state : FoldersState;
  r_toDelete : list string;
  r_events : list Event
}.

Section Reconciler.
Context `{UriOps}.

Definition initial : FoldersState :=
  {| providers := []; toDispose := []; allocated := 0 |}.

(** Modelled from the spec: the injected factory
    [folderPreferenceProviderFactory(options)], which constructs a new
    resolver for [{folder, configUri}] at every call. *)
Definition folderPreferenceProviderFactory
    (o : FolderPreferenceProviderOptions) (st : FoldersState)
    : FolderPreferenceProvider * FoldersState :=
  ({| oid := allocated st; options := o |},
   {| providers := providers st; toDispose := toDispose st;
      allocated := S (allocated st) |}).

(** [createProvider(options)] *)
Definition createProvider
    (o : FolderPreferenceProviderOptions) (st : FoldersState)
    : FolderPreferenceProvider * FoldersState :=
  let '(provider, st1) := folderPreferenceProviderFactory o st in
  (provider,
   {| providers := providers st1;
      toDispose := toDispose st1 ++ [DProvider provider; DListener provider];
      allocated := allocated st1 |}).

Definition configPaths : list string := [".theia"; ".vscode"].
Definition configFileNames : list string := ["launch.json"; "settings.json"].

(** [new URI(folder.uri).resolve(configPath).resolve(configFileName)] *)
Definition configUriOf (f : WorkspaceFolder) (configPath configFileName : string)
    : URI :=
  URI_resolve (URI_resolve (URI_new (uri f)) configPath) configFileName.

(** The body of the innermost loop of [updateProviders]. *)
Definition visitConfigFile (f : WorkspaceFolder) (configPath : string)
    (r : Recon) (configFileName : string) : Recon :=
  let cu := configUriOf f configPath configFileName in
  let key := URI_toString cu in
  let toDelete := JsSet.delete key (r_toDelete r) in
  if JsMap.has key (providers (r_state r)) then
    {| r_state := r_state r; r_toDelete := toDelete; r_events := r_events r |}
  else
    let '(provider, st1) :=
      createProvider {| folder := f; configUri := cu |} (r_state r) in
    {| r_state := {| providers := JsMap.set key provider (providers st1);
                     toDispose := toDispose st1;
                     allocated := allocated st1 |};
       r_toDelete := toDelete;
       r_events := r_events r ++ [EvFactory provider; EvSet key provider] |}.

Definition visitConfigPath (f : WorkspaceFolder) (r : Recon)
    (configPath : string) : Recon :=
  fold_left (visitConfigFile f configPath) configFileNames r.

Definition visitFolder (r : Recon) (f : WorkspaceFolder) : Recon :=
  fold_left (visitConfigPath f) configPaths r.

(** The body of the second loop of [updateProviders]. *)
Definition disposeStale (r : Recon) (key : string) : Recon :=
  match JsMap.get key (providers (r_state r)) with
  | Some provider =>
      {| r_state := {| providers := JsMap.delete key (providers (r_state r));
                       toDispose := toDispose (r_state r);
                       allocated := allocated (r_state r) |};
         r_toDelete := r_toDelete r;
         r_events := r_events r ++ [EvDelete key; EvDispose provider] |}
  | None => r
  end.

(** [updateProviders()], with [roots] what [tryGetRoots()] returns. *)
Definition updateProviders_run (roots : list WorkspaceFolder)
    (st : FoldersState) : Recon :=
  let r0 := {| r_state := st;
               r_toDelete := JsMap.keys (providers st);
               r_events := [] |} in
  let r1 := fold_left visitFolder roots r0 in
  fold_left disposeStale (r_toDelete r1) r1.

Definition updateProviders (roots : list WorkspaceFolder)
    (st : FoldersState) : FoldersState :=
  r_state (updateProviders_run roots st).

Definition updateProviders_events (roots : list WorkspaceFolder)
    (st : FoldersState) : list Event :=
  r_events (updateProviders_run roots st).
End Reconciler.

(** ** Preference values and the per-file provider *)

(** The JavaScript values a preference can hold, as far as the class tells
    them apart. *)
Inductive Value :=
  | VUndefined
  | VNull
  | VBool (b : bool)
  | VNum (n : Z)
  | VStr (s : string).

(** [{ value?: T, configUri?: URI }] *)
Record ResolveResult `{UriOps} := {
  value : Value;
  resultUri : option URI
}.

(** How an awaited [provider.setPreference(...)] ends. *)
Inductive WriteOutcome :=
  | Returned (b : bool)
  | Threw (e : string).

(** The state a promise is found in. *)
Inductive Settled :=
  | Pending
  | Fulfilled
  | Rejected (e : string).

(** What a [FolderPreferenceProvider] answers, in a state [w] of the world
    outside this class (the files, the provider's caches). *)
Record Collaborators `{UriOps} (World : Type) := {
  p_getConfigUri : FolderPreferenceProvider → option string → World → option URI;
  p_resolve : FolderPreferenceProvider → string → option string → World → ResolveResult;
  p_getPreferences : FolderPreferenceProvider → World → gmap string Value;
  p_setPreference : FolderPreferenceProvider → string → Value → option string →
                    World → WriteOutcome * World;
  p_ready : FolderPreferenceProvider → World → Settled
}.
Arguments p_getConfigUri {_ _} _ _ _ _.
Arguments p_resolve {_ _} _ _ _ _ _.
Arguments p_getPreferences {_ _} _ _ _.
Arguments p_setPreference {_ _} _ _ _ _ _ _.
Arguments p_ready {_ _} _ _ _.

Section Queries.
Context `{UriOps} {World : Type} (api : Collaborators World).

(** Modelled from the spec: the getter [provider.folderUri] of the
    per-file provider, which is the URI of the folder the provider was
    made for (its owning folder). *)
Definition folderUri (p : FolderPreferenceProvider) : URI :=
  URI_new (uri (folder (options p))).

(** [value !== undefined && value !== null] *)
Definition isDefined (v : Value) : bool :=
  match v with
  | VUndefined | VNull => false
  | _ => true
  end.

(** The body of the loop of [getProviders]: [acc] holds the local
    [relativity] and the local map [providers]. *)
Definition rankStep (resourceUri : option string) (resourcePath : Path)
    (w : World)
    (acc : Z * list (Z * list (string * list FolderPreferenceProvider)))
    (provider : FolderPreferenceProvider)
    : Z * list (Z * list (string * list FolderPreferenceProvider)) :=
  let '(relativity, byRelativity) := acc in
  match p_getConfigUri api provider resourceUri w with
  | Some configUri =>
      let folderRelativity :=
        Path_relativity (URI_path (folderUri provider)) resourcePath in
      if (0 <=? folderRelativity) && (relativity <=? folderRelativity) then
        let relativity := folderRelativity in
        let configProviders := default [] (JsMap.get relativity byRelativity) in
        let configPathUri := URI_toString (URI_parent configUri) in
        let folderProviders := default [] (JsMap.get configPathUri configProviders) in
        let folderProviders := folderProviders ++ [provider] in
        let configProviders := JsMap.set configPathUri folderProviders configProviders in
        (relativity, JsMap.set relativity configProviders byRelativity)
      else acc
  | None => acc
  end.

(** [getProviders(resourceUri)]; a missing and an empty [resourceUri] are
    both falsy. *)
Definition getProviders (st : FoldersState) (resourceUri : option string)
    (w : World) : list FolderPreferenceProvider :=
  match resourceUri with
  | None => []
  | Some "" => []
  | Some r =>
      let resourcePath := URI_path (URI_new r) in
      let '(relativity, byRelativity) :=
        fold_left (rankStep resourceUri resourcePath w)
                  (JsMap.values (providers st)) (-1, []) in
      match JsMap.get relativity byRelativity with
      | Some resultMap =>
          match JsMap.values resultMap with
          | first :: _ => first
          | [] => []
          end
      | None => []
      end
  end.

(** The empty result [{}]. *)
Definition emptyResult : ResolveResult :=
  {| value := VUndefined; resultUri := None |}.

(** The loop of [resolve]. *)
Fixpoint resolve_loop (ps : list FolderPreferenceProvider)
    (preferenceName : string) (resourceUri : option string) (w : World)
    : ResolveResult :=
  match ps with
  | [] => emptyResult
  | provider :: rest =>
      let r := p_resolve api provider preferenceName resourceUri w in
      if isDefined (value r)
      then {| value := value r; resultUri := resultUri r |}
      else resolve_loop rest preferenceName resourceUri w
  end.

(** [resolve(preferenceName, resourceUri)] *)
Definition resolve (st : FoldersState) (preferenceName : string)
    (resourceUri : option string) (w : World) : ResolveResult :=
  resolve_loop (getProviders st resourceUri w) preferenceName resourceUri w.

(** [Object.assign(target, source)] on plain objects *)
Definition Object_assign (target source : gmap string Value)
    : gmap string Value :=
  source ∪ target.

(** [getPreferences(resourceUri)] *)
Definition getPreferences (st : FoldersState) (resourceUri : option string)
    (w : World) : gmap string Value :=
  fold_left (λ result provider,
               Object_assign result (p_getPreferences api provider w))
            (reverse (getProviders st resourceUri w)) ∅.

(** The loop of [setPreference]: the world is threaded through the
    awaited writes, and [calls] records every write that was invoked,
    with how it ended. *)
Fixpoint setPreference_loop (ps : list FolderPreferenceProvider)
    (preferenceName : string) (v : Value) (resourceUri : option string)
    (w : World) (calls : list (FolderPreferenceProvider * WriteOutcome))
    : WriteOutcome * World * list (FolderPreferenceProvider * WriteOutcome) :=
  match ps with
  | [] => (Returned false, w, calls)
  | provider :: rest =>
      let '(o, w') := p_setPreference api provider preferenceName v resourceUri w in
      let calls := calls ++ [(provider, o)] in
      match o with
      | Returned true => (Returned true, w', calls)
      | Returned false =>
          setPreference_loop rest preferenceName v resourceUri w' calls
      | Threw e => (Threw e, w', calls)
      end
  end.

(** [setPreference(preferenceName, value, resourceUri)] *)
Definition setPreference (st : FoldersState) (preferenceName : string)
    (v : Value) (resourceUri : option string) (w : World)
    : WriteOutcome * World * list (FolderPreferenceProvider * WriteOutcome) :=
  setPreference_loop (getProviders st resourceUri w)
                     preferenceName v resourceUri w [].
End Queries.

(** ** Start-up and the readiness signal *)

(** What [init] leaves behind, seen at a moment when the world is [w]. *)
Record InitResult `{UriOps} := {
  i_state : FoldersState;
  (** a listener for [onWorkspaceChanged] is registered *)
  i_subscribed : bool;
  (** the promises pushed to [readyPromises] *)
  i_readyPromises : list Settled;
  (** what [console.error] has printed *)
  i_console : list string;
  (** [Promise.all(readyPromises)], once it has been called *)
  i_all : option Settled;
  (** [this._ready] has been resolved *)
  i_ready : bool;
  (** the promise [init] itself returns *)
  i_promise : Settled
}.

Section Init.
Context `{UriOps} {World : Type} (api : Collaborators World).

(** [promise.catch(e => console.error(e))]: the state of the new promise
    and what the handler printed. The handler returns normally, so a
    rejection becomes a fulfilment. *)
Definition Promise_catch (s : Settled) : Settled * list string :=
  match s with
  | Pending => (Pending, [])
  | Fulfilled => (Fulfilled, [])
  | Rejected e => (Fulfilled, [e])
  end.

(** [Promise.all(ps)]: rejected as soon as one is, fulfilled when every
    one is. *)
Fixpoint Promise_all (ps : list Settled) : Settled :=
  match ps with
  | [] => Fulfilled
  | Rejected e :: _ => Rejected e
  | Fulfilled :: rest => Promise_all rest
  | Pending :: rest =>
      match Promise_all rest with
      | Rejected e => Rejected e
      | _ => Pending
      end
  end.

(** [init()], run on the freshly constructed object. [rootsPromise] is the
    state of [workspaceService.roots], [roots] what [tryGetRoots()]
    returns once it is fulfilled. *)
Definition init (rootsPromise : Settled) (roots : list WorkspaceFolder)
    (w : World) : InitResult :=
  match rootsPromise with
  | Fulfilled =>
      let st := updateProviders roots initial in
      let caught :=
        map (λ provider, Promise_catch (p_ready api provider w))
            (JsMap.values (providers st)) in
      let readyPromises := caught.*1 in
      let all := Promise_all readyPromises in
      {| i_state := st;
         i_subscribed := true;
         i_readyPromises := readyPromises;
         i_console := concat (caught.*2);
         i_all := Some all;
         i_ready := match all with Fulfilled => true | _ => false end;
         i_promise := Fulfilled |}
  | other =>
      {| i_state := initial;
         i_subscribed := false;
         i_readyPromises := [];
         i_console := [];
         i_all := None;
         i_ready := false;
         i_promise := other |}
  end.
End Init.

(** ** A concrete instance for the examples *)

Module Sample.

(** Cuts [s] at every slash; [cur] is the segment being read. *)
Fixpoint segments (s cur : string) : list string :=
  match s with
  | EmptyString => [cur]
  | String c s' =>
      if Ascii.eqb c "/"%char
      then cur :: segments s' ""
      else segments s' (cur +:+ String c "")
  end.

Fixpoint isPrefix (a b : list string) : bool :=
  match a, b with
  | [], _ => true
  | x :: a', y :: b' => if decide (x = y) then isPrefix a' b' else false
  | _ :: _, [] => false
  end.

(** Modelled from the spec: the URI algebra of the core package, which is
    not part of this unit. A URI is the list of its path segments;
    relativity is the number of segments from the folder down to the
    resource, and -1 if the folder does not enclose the resource. *)
#[global] Instance uriOps : UriOps := {|
  URI := list string;
  Path := list string;
  URI_new s := filter (λ x, x ≠ "") (segments s "");
  URI_resolve u seg := u ++ [seg];
  URI_toString u := fold_left (λ acc seg, acc +:+ "/" +:+ seg) u "";
  URI_parent u := removelast u;
  URI_path u := u;
  Path_relativity f r :=
    if isPrefix f r then Z.of_nat (length r - length f) else -1
|}.

(** The world outside: the content of every configuration file that
    exists, by the text of its URI. *)
Definition Files : Type := gmap string (gmap string Value).

Definition fileOf (p : FolderPreferenceProvider) (w : Files)
    : gmap string Value :=
  default ∅ (w !! URI_toString (configUri (options p))).

Definition encloses (p : FolderPreferenceProvider) (resourceUri : option string)
    : bool :=
  match resourceUri with
  | None => true
  | Some r =>
      0 <=? Path_relativity (URI_path (URI_new (uri (folder (options p)))))
                            (URI_path (URI_new r))
  end.

(** Modelled from the spec: a per-file provider that governs the
    resources its folder encloses, answers from the content of its file
    and writes only to a file that exists. *)
Definition fileApi : Collaborators Files := {|
  p_getConfigUri p r w :=
    if encloses p r then Some (configUri (options p)) else None;
  p_resolve p key r w :=
    match fileOf p w !! key with
    | Some VUndefined | None => {| value := VUndefined; resultUri := None |}
    | Some v =>
        {| value := v;
           resultUri := if encloses p r then Some (configUri (options p)) else None |}
    end;
  p_getPreferences p w := fileOf p w;
  p_setPreference p key v r w :=
    let k := URI_toString (configUri (options p)) in
    match w !! k with
    | Some content =>
        if encloses p r
        then (Returned true, <[k := <[key := v]> content]> w)
        else (Returned false, w)
    | None => (Returned false, w)
    end;
  p_ready p w := Fulfilled
|}.

Definition rootA : WorkspaceFolder := {| uri := "/root/a" |}.
Definition rootB : WorkspaceFolder := {| uri := "/root/b" |}.

(** A world that only tells in which state the readiness of every provider
    object is; the providers answer nothing else. *)
Definition readyApi : Collaborators (nat → Settled) := {|
  p_getConfigUri p r w := None;
  p_resolve p key r w := {| value := VUndefined; resultUri := None |};
  p_getPreferences p w := ∅;
  p_setPreference p key v r w := (Returned false, w);
  p_ready p w := w (oid p)
|}.

End Sample.

(** ** The words of the specification *)

Section Vocabulary.
Context `{UriOps}.

(** The candidate locations of one folder, in the priority order of the
    two axes. *)
Definition locationsOf (f : WorkspaceFolder)
    : list (WorkspaceFolder * string * string) :=
  d ← configPaths; n ← configFileNames; [(f, d, n)].

(** The desired set: folders x directories x files. *)
Definition desired (roots : list WorkspaceFolder)
    : list (WorkspaceFolder * string * string) :=
  roots ≫= locationsOf.

(** The identity string of a location. *)
Definition keyOf (t : WorkspaceFolder * string * string) : string :=
  URI_toString (configUriOf t.1.1 t.1.2 t.2).

Definition desiredKeys (roots : list WorkspaceFolder) : list string :=
  keyOf <$> desired roots.

(** One iteration of the innermost loop, on a location. *)
Definition visit (r : Recon) (t : WorkspaceFolder * string * string) : Recon :=
  visitConfigFile t.1.1 t.1.2 r t.2.

(** What holds of the registry between two reconciliations: a key occurs
    once, an object is registered once, and every registered object came
    from the factory. *)
Definition registry_ok (st : FoldersState) : Prop :=
  JsMap.wf (providers st) ∧
  NoDup (oid <$> JsMap.values (providers st)) ∧
  Forall (λ p, (oid p < allocated st)%nat) (JsMap.values (providers st)).

(** The object identities on which [dispose] was called. *)
Definition disposed (evs : list Event) : list nat :=
  omap (λ e, match e with EvDispose p => Some (oid p) | _ => None end) evs.

(** The object identities the factory returned. *)
Definition created (evs : list Event) : list nat :=
  omap (λ e, match e with EvFactory p => Some (oid p) | _ => None end) evs.

(** The keys under which [set] stored a provider. *)
Definition inserted (evs : list Event) : list string :=
  omap (λ e, match e with EvSet k _ => Some k | _ => None end) evs.

(** The keys [delete] removed. *)
Definition removed (evs : list Event) : list string :=
  omap (λ e, match e with EvDelete k => Some k | _ => None end) evs.

(** The reconciliations of a session, one for every element of [changes]
    (the roots after each change of the workspace): the state they leave
    and everything they did. *)
Fixpoint reconcileAll (changes : list (list WorkspaceFolder))
    (st : FoldersState) : FoldersState * list Event :=
  match changes with
  | [] => (st, [])
  | roots :: more =>
      let '(st', evs) := reconcileAll more (updateProviders roots st) in
      (st', updateProviders_events roots st ++ evs)
  end.

(** What the second loop does for the keys [dl], seen from the registry
    [m] it starts with. *)
Definition staleEvents (m : list (string * FolderPreferenceProvider))
    (dl : list string) : list Event :=
  dl ≫= λ k, match JsMap.get k m with
             | Some p => [EvDelete k; EvDispose p]
             | None => []
             end.
End Vocabulary.

Section RankingVocabulary.
Context `{UriOps} {World : Type} (api : Collaborators World).

(** How deeply the folder of [p] encloses the resource [r]. *)
Definition relativityOf (r : string) (p : FolderPreferenceProvider) : Z :=
  Path_relativity (URI_path (folderUri p)) (URI_path (URI_new r)).

(** [p] governs the resource and its folder encloses it. *)
Definition applies (r : string) (w : World) (p : FolderPreferenceProvider)
    : bool :=
  match p_getConfigUri api p (Some r) w with
  | Some _ => 0 <=? relativityOf r p
  | None => false
  end.

(** The configuration directory [p] answers from (folder + directory). *)
Definition groupKey (r : string) (w : World) (p : FolderPreferenceProvider)
    : string :=
  match p_getConfigUri api p (Some r) w with
  | Some c => URI_toString (URI_parent c)
  | None => ""
  end.

(** The greatest relativity among the providers that apply, -1 if none
    does. *)
Definition bestRelativity (r : string) (w : World)
    (ps : list FolderPreferenceProvider) : Z :=
  fold_left Z.max (relativityOf r <$> filter (λ p, applies r w p) ps) (-1).

(** The providers that apply at the greatest relativity. *)
Definition topLevel (r : string) (w : World)
    (ps : list FolderPreferenceProvider) : list FolderPreferenceProvider :=
  filter (λ p, relativityOf r p = bestRelativity r w ps)
         (filter (λ p, applies r w p) ps).

(** The ranking in the words of the specification: of the providers at
    the greatest relativity, those of the directory of the first one. *)
Definition ranked (r : string) (w : World)
    (ps : list FolderPreferenceProvider) : list FolderPreferenceProvider :=
  match topLevel r w ps with
  | [] => []
  | p0 :: _ => filter (λ p, groupKey r w p = groupKey r w p0) (topLevel r w ps)
  end.

(** What the loop of [getProviders] does to the map of one level. *)
Definition addToGroup (r : string) (w : World)
    (gm : list (string * list FolderPreferenceProvider))
    (p : FolderPreferenceProvider)
    : list (string * list FolderPreferenceProvider) :=
  JsMap.set (groupKey r w p)
            (default [] (JsMap.get (groupKey r w p) gm) ++ [p]) gm.
End RankingVocabulary.

(** The registry after a first reconciliation with two sibling roots. *)
Definition sampleRegistry : FoldersState :=
  updateProviders [Sample.rootA; Sample.rootB] initial.

(** A resource under [/root/a]. *)
Definition sampleResource : option string := Some "/root/a/src/x.ts".

(** Files of [/root/a]: a launch file with [{a:1}] and a settings file
    with [{a:2, b:3}] in the primary directory. *)
Definition mergeFiles : Sample.Files :=
  {[ "/root/a/.theia/launch.json" := {[ "a" := VNum 1 ]};
     "/root/a/.theia/settings.json" := {[ "a" := VNum 2; "b" := VNum 3 ]} ]}.

(** Files of [/root/a]: a settings file in each directory, [key] being 1
    in the primary and 2 in the secondary one. *)
Definition settingsFiles : Sample.Files :=
  {[ "/root/a/.theia/settings.json" := {[ "key" := VNum 1 ]};
     "/root/a/.vscode/settings.json" := {[ "key" := VNum 2 ]} ]}.

(** Files of [/root/a]: only the settings file of the secondary directory
    has [key]; the primary directory has an empty settings file. *)
Definition secondaryOnlyFiles : Sample.Files :=
  {[ "/root/a/.theia/settings.json" := ∅;
     "/root/a/.vscode/settings.json" := {[ "key" := VNum 2 ]} ]}.

(** The same, with a settings file of [/root/b] giving [key] the value
    [v]. *)
Definition siblingFiles (v : Value) : Sample.Files :=
  <[ "/root/b/.theia/settings.json" := {[ "key" := v ]} ]> settingsFiles.

(** The four providers of a folder [f], as a first reconciliation makes
    them, the first one with the object identity [n]. *)
Definition providerOf `{UriOps} (n : nat) (f : WorkspaceFolder)
    (configPath configFileName : string) : FolderPreferenceProvider :=
  {| oid := n;
     options := {| folder := f;
                   configUri := configUriOf f configPath configFileName |} |}.

Section QueryVocabulary.
Context `{UriOps} {World : Type} (api : Collaborators World).

(** A write that reports success. *)
Definition succeeded (o : WriteOutcome) : bool :=
  match o with
  | Returned true => true
  | _ => false
  end.

(** The value of [key] in the first of [ps] whose preferences have the
    key. *)
Fixpoint firstWith (key : string) (w : World)
    (ps : list FolderPreferenceProvider) : option Value :=
  match ps with
  | [] => None
  | p :: rest =>
      match p_getPreferences api p w !! key with
      | Some v => Some v
      | None => firstWith key w rest
      end
  end.
End QueryVocabulary.

(** ** The rest of the class *)

Section Facade.
Context `{UriOps} {World : Type} (api : Collaborators World).

(** [path.name] of the core package: the base name of a path without its
    extension. *)
Variable Path_name : Path → string.

(** The loop of [getConfigUri]. *)
Fixpoint getConfigUri_loop (ps : list FolderPreferenceProvider)
    (resourceUri : option string) (w : World) : option URI :=
  match ps with
  | [] => None
  | provider :: rest =>
      match p_getConfigUri api provider resourceUri w with
      | Some configUri =>
          if decide (Path_name (URI_path configUri) = "settings")
          then Some configUri
          else getConfigUri_loop rest resourceUri w
      | None => getConfigUri_loop rest resourceUri w
      end
  end.

(** [getConfigUri(resourceUri)] *)
Definition getConfigUri (st : FoldersState) (resourceUri : option string)
    (w : World) : option URI :=
  getConfigUri_loop (JsMap.values (providers st)) resourceUri w.
End Facade.

Section ReconcilerVocabulary.
Context `{UriOps}.

(** The locations of [ds] for which a provider has to be made, given the
    keys [seen] that are registered: the first location of every key that
    is not. *)
Fixpoint missing (seen : list string)
    (ds : list (WorkspaceFolder * string * string))
    : list (WorkspaceFolder * string * string) :=
  match ds with
  | [] => []
  | t :: rest =>
      if decide (keyOf t ∈ seen) then missing seen rest
      else t :: missing (seen ++ [keyOf t]) rest
  end.

(** The entries made for the locations [ts], the first object having the
    identity [n]. *)
Fixpoint build (n : nat) (ts : list (WorkspaceFolder * string * string))
    : list (string * FolderPreferenceProvider) :=
  match ts with
  | [] => []
  | t :: rest =>
      (keyOf t, {| oid := n;
                   options := {| folder := t.1.1;
                                 configUri := configUriOf t.1.1 t.1.2 t.2 |} |})
      :: build (S n) rest
  end.

(** What a reconciliation for [roots] appends to the registry of [st]. *)
Definition appended (roots : list WorkspaceFolder) (st : FoldersState)
    : list (string * FolderPreferenceProvider) :=
  build (allocated st) (missing (JsMap.keys (providers st)) (desired roots)).

(** The entries of [st] a reconciliation for [roots] removes. *)
Definition stale (roots : list WorkspaceFolder) (st : FoldersState)
    : list (string * FolderPreferenceProvider) :=
  filter (λ kp, kp.1 ∉ desiredKeys roots) (providers st).

(** The entries of [st] a reconciliation for [roots] keeps. *)
Definition kept (roots : list WorkspaceFolder) (st : FoldersState)
    : list (string * FolderPreferenceProvider) :=
  filter (λ kp, kp.1 ∈ desiredKeys roots) (providers st).

(** What [createProvider] pushes for the entries [m]. *)
Definition disposablesOf (m : list (string * FolderPreferenceProvider))
    : list Disposable :=
  m ≫= λ kp, [DProvider kp.2; DListener kp.2].

(** What the first loop does for the entries [m] it appends. *)
Definition creationEvents (m : list (string * FolderPreferenceProvider))
    : list Event :=
  m ≫= λ kp, [EvFactory kp.2; EvSet kp.1 kp.2].

(** What the second loop does for the entries [m] it removes. *)
Definition disposalEvents (m : list (string * FolderPreferenceProvider))
    : list Event :=
  m ≫= λ kp, [EvDelete kp.1; EvDispose kp.2].

(** Every registered provider was made for the location its key names. *)
Definition made_for_its_key (st : FoldersState) : Prop :=
  ∀ k p, (k, p) ∈ providers st →
    ∃ d n, d ∈ configPaths ∧ n ∈ configFileNames ∧
           k = keyOf (folder (options p), d, n) ∧
           configUri (options p) = configUriOf (folder (options p)) d n.
End ReconcilerVocabulary.


Module SampleMore.

Fixpoint hasDot (s : string) : bool :=
  match s with
  | EmptyString => false
  | String c s' => if Ascii.eqb c "."%char then true else hasDot s'
  end.

(** [s] without its extension (what follows its last dot). *)
Fixpoint stem (s : string) : string :=
  match s with
  | EmptyString => EmptyString
  | String c s' =>
      if Ascii.eqb c "."%char && negb (hasDot s') then EmptyString
      else String c (stem s')
  end.

(** Modelled from the spec: [path.name] on the sample URIs, the last
    segment without its extension. *)
Definition pathName (p : list string) : string :=
  stem (default "" (last p)).

(** A world that only tells how the write of every provider object ends;
    a provider governs the resources its folder encloses. *)
Definition writeApi : Collaborators (nat → WriteOutcome) := {|
  p_getConfigUri p r w :=
    if Sample.encloses p r then Some (configUri (options p)) else None;
  p_resolve p key r w := {| value := VUndefined; resultUri := None |};
  p_getPreferences p w := ∅;
  p_setPreference p key v r w := (w (oid p), w);
  p_ready p w := Fulfilled
|}.

(** Files of [/root/a]: [key] is 10 in the launch file and 20 in the
    settings file of the primary directory. *)
Definition launchFiles : Sample.Files :=
  {[ "/root/a/.theia/launch.json" := {[ "key" := VNum 10 ]};
     "/root/a/.theia/settings.json" := {[ "key" := VNum 20 ]} ]}.

End SampleMore.

(** * Properties *)

#[local] Set Warnings "-clear-no-such-hyp".


(** ** Facts about [Map] and [Set] *)

Section JsMapFacts.
Context {K V : Type} `{EqDecision K}.
Implicit Types (m : list (K * V)) (s : list K).

Lemma get_None_iff k m : JsMap.get k m = None ↔ k ∉ JsMap.keys m.
Proof.
  induction m as [|[k' v'] m IH]; simpl.
  - split; [intros _; apply not_elem_of_nil | done].
  - destruct (decide (k = k')) as [->|Hne].
    + split; [done | intros Hn; exfalso; apply Hn; left].
    + rewrite IH. split.
      * intros Hn Hin. apply elem_of_cons in Hin as [?|?]; [done | by apply Hn].
      * intros Hn Hin. apply Hn. by right.
Qed.

Lemma get_Some_elem k v m : JsMap.get k m = Some v → (k, v) ∈ m.
Proof.
  induction m as [|[k' v'] m IH]; simpl; [done|].
  destruct (decide (k = k')) as [->|Hne].
  - intros [= ->]. left.
  - intros Hg. right. by apply IH.
Qed.

Lemma elem_get k v m : JsMap.wf m → (k, v) ∈ m → JsMap.get k m = Some v.
Proof.
  unfold JsMap.wf, JsMap.keys.
  induction m as [|[k' v'] m IH]; simpl; intros Hnd Hin.
  - by apply elem_of_nil in Hin.
  - apply NoDup_cons in Hnd as [Hk' Hnd].
    apply elem_of_cons in Hin as [Heq|Hin].
    + injection Heq as -> ->. by rewrite decide_True.
    + destruct (decide (k = k')) as [->|Hne]; [|by apply IH].
      exfalso. apply Hk'. apply list_elem_of_fmap. by exists (k', v).
Qed.

Lemma has_true_iff k m : JsMap.has k m = true ↔ k ∈ JsMap.keys m.
Proof.
  unfold JsMap.has. destruct (JsMap.get k m) eqn:Hg.
  - split; [intros _ | done].
    destruct (decide (k ∈ JsMap.keys m)) as [|Hn]; [done|].
    apply get_None_iff in Hn. congruence.
  - apply get_None_iff in Hg. split; [done | intros; by exfalso].
Qed.

Lemma has_false_iff k m : JsMap.has k m = false ↔ JsMap.get k m = None.
Proof. unfold JsMap.has. by destruct (JsMap.get k m). Qed.

Lemma set_fresh k v m : JsMap.get k m = None → JsMap.set k v m = m ++ [(k, v)].
Proof.
  induction m as [|[k' v'] m IH]; simpl; [done|].
  destruct (decide (k = k')); [done|]. intros Hg. by rewrite IH.
Qed.

Lemma get_set k' k v m :
  JsMap.get k' (JsMap.set k v m) = if decide (k' = k) then Some v else JsMap.get k' m.
Proof.
  induction m as [|[k0 v0] m IH]; simpl.
  - by destruct (decide (k' = k)).
  - destruct (decide (k = k0)) as [->|Hne]; simpl.
    + by destruct (decide (k' = k0)).
    + destruct (decide (k' = k0)) as [->|Hne'].
      * by rewrite decide_False.
      * apply IH.
Qed.

Lemma get_app k m1 m2 :
  JsMap.get k (m1 ++ m2) =
  match JsMap.get k m1 with Some v => Some v | None => JsMap.get k m2 end.
Proof.
  induction m1 as [|[k0 v0] m1 IH]; simpl; [done|].
  by destruct (decide (k = k0)).
Qed.

Lemma get_delete k' k m :
  JsMap.get k' (JsMap.delete k m) = if decide (k' = k) then None else JsMap.get k' m.
Proof.
  induction m as [|[k0 v0] m IH]; simpl.
  - by destruct (decide (k' = k)).
  - destruct (decide (k = k0)) as [->|Hne]; simpl.
    + rewrite IH. destruct (decide (k' = k0)); done.
    + destruct (decide (k' = k0)) as [->|Hne'].
      * by rewrite decide_False.
      * apply IH.
Qed.

Lemma delete_sublist k m : JsMap.delete k m `sublist_of` m.
Proof.
  induction m as [|[k0 v0] m IH]; simpl; [constructor|].
  destruct (decide (k = k0)); by constructor.
Qed.

Lemma delete_absent k m : k ∉ JsMap.keys m → JsMap.delete k m = m.
Proof.
  unfold JsMap.keys.
  induction m as [|[k0 v0] m IH]; simpl; [done|].
  intros Hn. apply not_elem_of_cons in Hn as [Hne Hn].
  rewrite decide_False by done. by rewrite IH.
Qed.

Lemma wf_delete k m : JsMap.wf m → JsMap.wf (JsMap.delete k m).
Proof.
  unfold JsMap.wf, JsMap.keys. intros Hnd.
  eapply sublist_NoDup; [exact Hnd | apply fmap_sublist, delete_sublist].
Qed.

Lemma wf_app_fresh k v m :
  JsMap.wf m → JsMap.get k m = None → JsMap.wf (m ++ [(k, v)]).
Proof.
  unfold JsMap.wf. intros Hnd Hg. apply get_None_iff in Hg.
  unfold JsMap.keys in *. rewrite fmap_app. simpl.
  apply NoDup_app. split_and!; [done | | apply NoDup_singleton].
  intros x Hx Hx'. apply list_elem_of_singleton in Hx' as ->. done.
Qed.

Lemma elem_set_delete x k s : x ∈ JsSet.delete k s ↔ x ∈ s ∧ x ≠ k.
Proof.
  induction s as [|k0 s IH]; simpl.
  - split; [intros Hx; by apply elem_of_nil in Hx | intros [Hx _]; done].
  - destruct (decide (k = k0)) as [->|Hne].
    + rewrite IH, elem_of_cons. naive_solver.
    + rewrite !elem_of_cons, IH. naive_solver.
Qed.

Lemma NoDup_set_delete k s : NoDup s → NoDup (JsSet.delete k s).
Proof.
  induction s as [|k0 s IH]; simpl; [done|].
  intros Hnd. apply NoDup_cons in Hnd as [Hk0 Hnd].
  destruct (decide (k = k0)); [by apply IH|].
  apply NoDup_cons. split; [|by apply IH].
  rewrite elem_set_delete. naive_solver.
Qed.
End JsMapFacts.

(** ** The two loops of [updateProviders] *)

Section ReconcilerFacts.
Context `{UriOps}.
Implicit Types (r : Recon) (st : FoldersState)
  (t : WorkspaceFolder * string * string).

Lemma fold_visitFolder roots r :
  fold_left visitFolder roots r = fold_left visit (desired roots) r.
Proof.
  revert r. induction roots as [|f roots IH]; intros r; [done|].
  change (desired (f :: roots)) with (locationsOf f ++ desired roots).
  rewrite fold_left_app. simpl. by rewrite IH.
Qed.

(** One iteration, when the key is already registered. *)
Lemma visit_present r t :
  JsMap.has (keyOf t) (providers (r_state r)) = true →
  visit r t = {| r_state := r_state r;
                 r_toDelete := JsSet.delete (keyOf t) (r_toDelete r);
                 r_events := r_events r |}.
Proof.
  intros Hhas. unfold visit, visitConfigFile, keyOf in *. by rewrite Hhas.
Qed.

(** One iteration, when the key is new. *)
Lemma visit_absent r t :
  JsMap.has (keyOf t) (providers (r_state r)) = false →
  let p := {| oid := allocated (r_state r);
              options := {| folder := t.1.1;
                            configUri := configUriOf t.1.1 t.1.2 t.2 |} |} in
  visit r t =
    {| r_state :=
         {| providers := providers (r_state r) ++ [(keyOf t, p)];
            toDispose := toDispose (r_state r) ++ [DProvider p; DListener p];
            allocated := S (allocated (r_state r)) |};
       r_toDelete := JsSet.delete (keyOf t) (r_toDelete r);
       r_events := r_events r ++ [EvFactory p; EvSet (keyOf t) p] |}.
Proof.
  intros Hhas. unfold visit, visitConfigFile, keyOf in *. rewrite Hhas.
  simpl. rewrite set_fresh; [done|]. by apply has_false_iff.
Qed.

(** The first loop: it only appends, under keys that were missing, objects
    fresh from the factory; it strikes the visited keys from [toDelete];
    it disposes of nothing. *)
Lemma first_loop ds r :
  ∃ added evs,
    providers (r_state (fold_left visit ds r)) = providers (r_state r) ++ added ∧
    r_events (fold_left visit ds r) = r_events r ++ evs ∧
    (allocated (r_state r) ≤ allocated (r_state (fold_left visit ds r)))%nat ∧
    (∀ k p, (k, p) ∈ added →
       k ∈ (keyOf <$> ds) ∧ (k ∉ JsMap.keys (providers (r_state r))) ∧
       (allocated (r_state r) ≤ oid p)%nat ∧
       (oid p < allocated (r_state (fold_left visit ds r)))%nat) ∧
    NoDup (added.*1) ∧
    NoDup (oid <$> added.*2) ∧
    (∀ k, k ∈ (keyOf <$> ds) → k ∈ JsMap.keys (providers (r_state r) ++ added)) ∧
    (∀ x, x ∈ r_toDelete (fold_left visit ds r) ↔
          x ∈ r_toDelete r ∧ x ∉ (keyOf <$> ds)) ∧
    (NoDup (r_toDelete r) → NoDup (r_toDelete (fold_left visit ds r))) ∧
    created evs = oid <$> added.*2 ∧
    inserted evs = added.*1 ∧
    disposed evs = [] ∧
    removed evs = [].
Proof.
  induction ds as [|t ds IH] using rev_ind.
  - exists [], []. simpl. rewrite !app_nil_r.
    split_and!; try done.
    + intros k p Hin. by apply elem_of_nil in Hin.
    + constructor.
    + constructor.
    + intros k Hin. by apply elem_of_nil in Hin.
    + intros x. split; [intros Hx; split; [done | apply not_elem_of_nil] | by intros [? _]].
  - destruct IH as (added & evs & Hp & He & Hal & Hadd & Hnk & Hno & Hcov & Htd & Htdn
                    & Hcr & Hins & Hdis & Hrem).
    rewrite fold_left_app. simpl.
    set (r1 := fold_left visit ds r) in *.
    destruct (JsMap.has (keyOf t) (providers (r_state r1))) eqn:Hhas.
    + rewrite (visit_present _ _ Hhas). simpl.
      exists added, evs. split_and!; try done.
      * intros k p Hin. destruct (Hadd k p Hin) as (Hk & Hk' & Ho & Ho').
        split_and!; try done. rewrite fmap_app. apply elem_of_app. by left.
      * intros k Hk. rewrite fmap_app in Hk. apply elem_of_app in Hk as [Hk|Hk].
        { by apply Hcov. }
        apply list_elem_of_singleton in Hk as ->.
        apply has_true_iff in Hhas. by rewrite Hp in Hhas.
      * intros x. rewrite elem_set_delete, Htd, fmap_app, elem_of_app.
        simpl. rewrite list_elem_of_singleton. naive_solver.
      * intros Hnd. by apply NoDup_set_delete, Htdn.
    + rewrite (visit_absent _ _ Hhas). simpl.
      set (p := {| oid := allocated (r_state r1);
                   options := {| folder := t.1.1;
                                 configUri := configUriOf t.1.1 t.1.2 t.2 |} |}).
      assert (Hfresh : keyOf t ∉ JsMap.keys (providers (r_state r) ++ added)).
      { rewrite <- Hp. apply get_None_iff. by apply has_false_iff. }
      unfold JsMap.keys in Hfresh. rewrite fmap_app in Hfresh.
      apply not_elem_of_app in Hfresh as [Hf1 Hf2].
      exists (added ++ [(keyOf t, p)]), (evs ++ [EvFactory p; EvSet (keyOf t) p]).
      split_and!.
      * rewrite Hp. by rewrite app_assoc.
      * rewrite He. by rewrite app_assoc.
      * lia.
      * intros k q Hin. apply elem_of_app in Hin as [Hin|Hin].
        { destruct (Hadd k q Hin) as (Hk & Hk' & Ho & Ho').
          split_and!; try done; [|lia].
          rewrite fmap_app. apply elem_of_app. by left. }
        apply list_elem_of_singleton in Hin. injection Hin as -> ->.
        split_and!; [|done|simpl; lia|simpl; lia].
        rewrite fmap_app. apply elem_of_app. right. by apply list_elem_of_singleton.
      * rewrite fmap_app. apply NoDup_app. split_and!; [done| |apply NoDup_singleton].
        intros x Hx Hx'. apply list_elem_of_singleton in Hx'. simpl in Hx'. by subst.
      * rewrite !fmap_app. apply NoDup_app. split_and!; [done| |apply NoDup_singleton].
        intros x Hx Hx'. apply list_elem_of_singleton in Hx'. simpl in Hx'. subst x.
        apply list_elem_of_fmap in Hx as (q & Hq & Hqin).
        apply list_elem_of_fmap in Hqin as ([k q'] & -> & Hkq).
        destruct (Hadd k q' Hkq) as (_ & _ & _ & Ho). simpl in Hq. lia.
      * intros k Hk. unfold JsMap.keys. rewrite !fmap_app. simpl.
        rewrite fmap_app in Hk. apply elem_of_app in Hk as [Hk|Hk].
        { specialize (Hcov k Hk). unfold JsMap.keys in Hcov.
          rewrite fmap_app in Hcov. rewrite !elem_of_app.
          apply elem_of_app in Hcov. naive_solver. }
        apply list_elem_of_singleton in Hk as ->.
        rewrite !elem_of_app. right. right. by apply list_elem_of_singleton.
      * intros x. rewrite elem_set_delete, Htd, fmap_app, elem_of_app.
        simpl. rewrite list_elem_of_singleton. naive_solver.
      * intros Hnd. by apply NoDup_set_delete, Htdn.
      * unfold created in *. rewrite omap_app, Hcr. simpl. by rewrite !fmap_app.
      * unfold inserted in *. rewrite omap_app, Hins. simpl. by rewrite !fmap_app.
      * unfold disposed in *. rewrite omap_app, Hdis. done.
      * unfold removed in *. rewrite omap_app, Hrem. done.
Qed.

Lemma staleEvents_ext m m' dl :
  (∀ k, k ∈ dl → JsMap.get k m = JsMap.get k m') →
  staleEvents m dl = staleEvents m' dl.
Proof.
  unfold staleEvents. induction dl as [|k dl IH]; intros Heq; [done|].
  simpl. rewrite (Heq k) by left. f_equal. apply IH.
  intros k' Hk'. apply Heq. by right.
Qed.

(** The second loop: it removes exactly the keys of [toDelete], and
    disposes of what was registered under them. *)
Lemma second_loop dl r :
  NoDup dl →
  (∀ k, JsMap.get k (providers (r_state (fold_left disposeStale dl r))) =
        if decide (k ∈ dl) then None else JsMap.get k (providers (r_state r))) ∧
  providers (r_state (fold_left disposeStale dl r))
    `sublist_of` providers (r_state r) ∧
  toDispose (r_state (fold_left disposeStale dl r)) = toDispose (r_state r) ∧
  allocated (r_state (fold_left disposeStale dl r)) = allocated (r_state r) ∧
  r_events (fold_left disposeStale dl r) =
    r_events r ++ staleEvents (providers (r_state r)) dl.
Proof.
  revert r. induction dl as [|k dl IH]; intros r Hnd.
  - simpl. split_and!; [done|done|done|done|].
    unfold staleEvents. simpl. by rewrite app_nil_r.
  - apply NoDup_cons in Hnd as [Hk Hnd]. simpl.
    destruct (IH (disposeStale r k) Hnd) as (Hget & Hsub & Htd & Hal & Hev).
    unfold disposeStale in *.
    destruct (JsMap.get k (providers (r_state r))) as [p|] eqn:Hg; simpl in *.
    + split_and!; [| |done|done|].
      * intros k'. rewrite Hget, get_delete.
        destruct (decide (k' = k)) as [->|Hne].
        { rewrite (decide_True (P := k ∈ k :: dl)) by left. by destruct (decide (k ∈ dl)). }
        destruct (decide (k' ∈ dl)) as [Hin|Hnin].
        { rewrite decide_True; [done | by right]. }
        rewrite decide_False; [done|].
        intros Hin. apply elem_of_cons in Hin as [?|?]; done.
      * etrans; [exact Hsub | apply delete_sublist].
      * rewrite Hev. rewrite <- app_assoc. f_equal. simpl. f_equal. f_equal.
        apply staleEvents_ext. intros k' Hk'. rewrite get_delete.
        rewrite decide_False; [done|]. intros ->. done.
    + split_and!; [|done|done|done|].
      * intros k'. rewrite Hget.
        destruct (decide (k' ∈ dl)) as [Hin|Hnin].
        { rewrite decide_True; [done | by right]. }
        destruct (decide (k' = k)) as [->|Hne].
        { rewrite decide_True; [done | left]. }
        rewrite decide_False; [done|].
        intros Hin. apply elem_of_cons in Hin as [?|?]; done.
      * by rewrite Hev.
Qed.

(** One reconciliation, as the two loops leave it: [added] is what the
    first loop appended, [td] what was left in [toDelete]. *)
Lemma run_shape roots st :
  JsMap.wf (providers st) →
  ∃ added evs1 td,
    (∀ k p, (k, p) ∈ added →
       k ∈ desiredKeys roots ∧ (k ∉ JsMap.keys (providers st)) ∧
       (allocated st ≤ oid p)%nat ∧
       (oid p < allocated (updateProviders roots st))%nat) ∧
    NoDup (added.*1) ∧
    NoDup (oid <$> added.*2) ∧
    (∀ k, k ∈ desiredKeys roots → k ∈ JsMap.keys (providers st ++ added)) ∧
    (∀ x, x ∈ td ↔ x ∈ JsMap.keys (providers st) ∧ x ∉ desiredKeys roots) ∧
    NoDup td ∧
    created evs1 = oid <$> added.*2 ∧
    inserted evs1 = added.*1 ∧
    disposed evs1 = [] ∧
    removed evs1 = [] ∧
    (∀ k, JsMap.get k (providers (updateProviders roots st)) =
          if decide (k ∈ td) then None else JsMap.get k (providers st ++ added)) ∧
    providers (updateProviders roots st) `sublist_of` (providers st ++ added) ∧
    (allocated st ≤ allocated (updateProviders roots st))%nat ∧
    updateProviders_events roots st =
      evs1 ++ staleEvents (providers st ++ added) td.
Proof.
  intros Hwf.
  unfold updateProviders, updateProviders_events, updateProviders_run.
  rewrite fold_visitFolder.
  set (r0 := {| r_state := st; r_toDelete := JsMap.keys (providers st);
                r_events := [] |}).
  destruct (first_loop (desired roots) r0)
    as (added & evs & Hp & He & Hal & Hadd & Hnk & Hno & Hcov & Htd & Htdn
        & Hcr & Hins & Hdis & Hrem).
  set (r1 := fold_left visit (desired roots) r0) in *.
  simpl in Hp, He, Hal, Hadd, Hcov, Htd, Htdn.
  destruct (second_loop (r_toDelete r1) r1 (Htdn Hwf))
    as (Hget & Hsub & _ & Hal2 & Hev).
  exists added, evs, (r_toDelete r1).
  split_and!; try done.
  - intros k p Hin. destruct (Hadd k p Hin) as (? & ? & ? & ?).
    split_and!; try done. rewrite Hal2. done.
  - by apply Htdn.
  - intros k. rewrite Hget. by rewrite Hp.
  - by rewrite <- Hp.
  - by rewrite Hal2.
  - by rewrite Hev, He, Hp.
Qed.

Lemma length_desired roots : length (desired roots) = (4 * length roots)%nat.
Proof.
  induction roots as [|f roots IH]; [done|].
  change (desired (f :: roots)) with (locationsOf f ++ desired roots).
  rewrite length_app, IH. simpl. lia.
Qed.

Lemma desiredKeys_intro roots f d n :
  f ∈ roots → d ∈ configPaths → n ∈ configFileNames →
  keyOf (f, d, n) ∈ desiredKeys roots.
Proof.
  intros Hf Hd Hn. unfold desiredKeys. apply list_elem_of_fmap_2.
  unfold desired. apply list_elem_of_bind. exists f. split; [|done].
  unfold locationsOf. apply list_elem_of_bind. exists d. split; [|done].
  apply list_elem_of_bind. exists n. split; [|done]. left.
Qed.

Lemma NoDup_fmap_eq {A B} (f : A → B) (l : list A) x y :
  NoDup (f <$> l) → x ∈ l → y ∈ l → f x = f y → x = y.
Proof.
  induction l as [|a l IH]; simpl; intros Hnd Hx Hy Heq.
  - by apply elem_of_nil in Hx.
  - apply NoDup_cons in Hnd as [Ha Hnd].
    apply elem_of_cons in Hx as [->|Hx]; apply elem_of_cons in Hy as [->|Hy].
    + done.
    + exfalso. apply Ha. rewrite Heq. by apply list_elem_of_fmap_2.
    + exfalso. apply Ha. rewrite <- Heq. by apply list_elem_of_fmap_2.
    + by apply IH.
Qed.

(** Two keys that hold the same object are the same key. *)
Lemma registry_ok_key_of_oid st k k' p q :
  registry_ok st →
  JsMap.get k (providers st) = Some p →
  JsMap.get k' (providers st) = Some q →
  oid p = oid q → k = k'.
Proof.
  intros (_ & Hnd & _) Hk Hk' Ho.
  apply get_Some_elem in Hk, Hk'.
  unfold JsMap.values in Hnd. rewrite <- list_fmap_compose in Hnd.
  by injection (NoDup_fmap_eq _ _ _ _ Hnd Hk Hk' Ho).
Qed.

Lemma staleEvents_cons m k dl :
  staleEvents m (k :: dl) =
  match JsMap.get k m with
  | Some p => [EvDelete k; EvDispose p]
  | None => []
  end ++ staleEvents m dl.
Proof. done. Qed.

Lemma staleEvents_app m dl1 dl2 :
  staleEvents m (dl1 ++ dl2) = staleEvents m dl1 ++ staleEvents m dl2.
Proof. unfold staleEvents. apply bind_app. Qed.

Lemma created_stale m dl : created (staleEvents m dl) = [].
Proof.
  induction dl as [|k dl IH]; [done|].
  rewrite staleEvents_cons. unfold created in *. rewrite omap_app, IH.
  by destruct (JsMap.get k m).
Qed.

Lemma inserted_stale m dl : inserted (staleEvents m dl) = [].
Proof.
  induction dl as [|k dl IH]; [done|].
  rewrite staleEvents_cons. unfold inserted in *. rewrite omap_app, IH.
  by destruct (JsMap.get k m).
Qed.

Lemma removed_stale m dl :
  removed (staleEvents m dl) = filter (λ k, is_Some (JsMap.get k m)) dl.
Proof.
  induction dl as [|k dl IH]; [done|].
  rewrite staleEvents_cons. unfold removed in *. rewrite omap_app, IH, filter_cons.
  by destruct (JsMap.get k m).
Qed.

Lemma disposed_stale m dl :
  disposed (staleEvents m dl) = omap (λ k, oid <$> JsMap.get k m) dl.
Proof.
  induction dl as [|k dl IH]; [done|].
  rewrite staleEvents_cons. unfold disposed in *. rewrite omap_app, IH.
  simpl. by destruct (JsMap.get k m).
Qed.

Lemma filter_omap_none {A} (g : A → option nat) (l : list A) a :
  (∀ y, y ∈ l → g y ≠ Some a) →
  filter (λ i, i = a) (omap g l) = [].
Proof.
  induction l as [|y l IH]; intros Hno; [done|]. simpl.
  destruct (g y) as [b|] eqn:Hgy.
  - rewrite filter_cons, decide_False.
    + apply IH. intros z Hz. apply Hno. by right.
    + intros ->. by apply (Hno y); [left|].
  - apply IH. intros z Hz. apply Hno. by right.
Qed.

Lemma count_omap_once {A} (g : A → option nat) (l : list A) x a :
  NoDup l → x ∈ l → g x = Some a →
  (∀ y, y ∈ l → y ≠ x → g y ≠ Some a) →
  length (filter (λ i, i = a) (omap g l)) = 1%nat.
Proof.
  induction l as [|y l IH]; intros Hnd Hx Hgx Hother.
  - by apply elem_of_nil in Hx.
  - apply NoDup_cons in Hnd as [Hy Hnd]. simpl.
    apply elem_of_cons in Hx as [->|Hx].
    + rewrite Hgx. rewrite filter_cons, decide_True by done. simpl. f_equal.
      rewrite filter_omap_none; [done|].
      intros z Hz. apply Hother; [by right|]. intros ->. done.
    + assert (y ≠ x) as Hne by (intros ->; done).
      destruct (g y) as [b|] eqn:Hgy.
      * rewrite filter_cons, decide_False.
        { apply IH; try done. intros z Hz. apply Hother. by right. }
        intros ->. by apply (Hother y); [left| |].
      * apply IH; try done. intros z Hz. apply Hother. by right.
Qed.

(** After a reconciliation the registered keys are the desired keys. *)
Lemma updateProviders_keys roots st k :
  JsMap.wf (providers st) →
  k ∈ JsMap.keys (providers (updateProviders roots st)) ↔ k ∈ desiredKeys roots.
Proof.
  intros Hwf.
  destruct (run_shape roots st Hwf)
    as (added & evs1 & td & Hadd & _ & _ & Hcov & Htd & _ & _ & _ & _ & _
        & Hget & _ & _ & _).
  split.
  - intros Hk.
    destruct (JsMap.get k (providers (updateProviders roots st))) as [p|] eqn:Hg;
      [|by apply get_None_iff in Hg].
    rewrite Hget in Hg. destruct (decide (k ∈ td)) as [|Hntd]; [done|].
    destruct (decide (k ∈ desiredKeys roots)) as [|Hnd]; [done|]. exfalso.
    rewrite get_app in Hg.
    destruct (JsMap.get k (providers st)) as [q|] eqn:Hst.
    + apply Hntd, Htd. split; [|done].
      apply get_Some_elem in Hst. apply list_elem_of_fmap. by exists (k, q).
    + apply get_Some_elem in Hg. by destruct (Hadd k p Hg) as (? & _).
  - intros Hk.
    destruct (JsMap.get k (providers (updateProviders roots st))) as [p|] eqn:Hg.
    + apply get_Some_elem in Hg. apply list_elem_of_fmap. by exists (k, p).
    + exfalso. rewrite Hget in Hg.
      destruct (decide (k ∈ td)) as [Hin|_].
      * apply Htd in Hin as [_ Hn]. done.
      * apply get_None_iff in Hg. by apply Hg, Hcov.
Qed.

Lemma updateProviders_registry_ok roots st :
  registry_ok st → registry_ok (updateProviders roots st).
Proof.
  intros (Hwf & Hoids & Hlt).
  destruct (run_shape roots st Hwf)
    as (added & evs1 & td & Hadd & Hnk & Hno & _ & _ & _ & _ & _ & _ & _
        & _ & Hsub & Hal & _).
  split_and!.
  - unfold JsMap.wf, JsMap.keys.
    eapply sublist_NoDup; [|apply fmap_sublist, Hsub].
    rewrite fmap_app. apply NoDup_app. split_and!; [done| |done].
    intros x Hx Hx'. apply list_elem_of_fmap in Hx' as ([k p] & -> & Hin).
    by destruct (Hadd k p Hin) as (_ & Hn & _).
  - unfold JsMap.values.
    eapply sublist_NoDup; [|apply fmap_sublist, fmap_sublist, Hsub].
    rewrite !fmap_app. apply NoDup_app. split_and!; [done| |done].
    intros x Hx Hx'.
    apply list_elem_of_fmap in Hx as (p & -> & Hp).
    apply list_elem_of_fmap in Hx' as (q & Hq & Hqin).
    apply list_elem_of_fmap in Hqin as ([k q'] & -> & Hin).
    destruct (Hadd k q' Hin) as (_ & _ & Hge & _).
    rewrite Forall_forall in Hlt. specialize (Hlt p Hp). simpl in *. lia.
  - rewrite Forall_forall. intros p Hp.
    assert (p ∈ (providers st ++ added).*2) as Hin.
    { eapply elem_of_sublist; [exact Hp | apply fmap_sublist, Hsub]. }
    rewrite fmap_app in Hin. apply elem_of_app in Hin as [Hin|Hin].
    + rewrite Forall_forall in Hlt. specialize (Hlt p Hin). simpl in *. lia.
    + apply list_elem_of_fmap in Hin as ([k q] & -> & Hin).
      by destruct (Hadd k q Hin) as (_ & _ & _ & ?).
Qed.

Lemma registry_ok_initial : registry_ok initial.
Proof. split_and!; constructor. Qed.

Lemma updateProviders_wf roots st :
  JsMap.wf (providers st) → JsMap.wf (providers (updateProviders roots st)).
Proof.
  intros Hwf.
  destruct (run_shape roots st Hwf)
    as (added & evs1 & td & Hadd & Hnk & _ & _ & _ & _ & _ & _ & _ & _
        & _ & Hsub & _ & _).
  unfold JsMap.wf, JsMap.keys.
  eapply sublist_NoDup; [|apply fmap_sublist, Hsub].
  rewrite fmap_app. apply NoDup_app. split_and!; [done| |done].
  intros x Hx Hx'. apply list_elem_of_fmap in Hx' as ([k p] & -> & Hin).
  by destruct (Hadd k p Hin) as (_ & Hn & _).
Qed.

(** What a reconciliation disposes of was registered before it. *)
Lemma disposed_run_registered roots st i :
  JsMap.wf (providers st) →
  i ∈ disposed (updateProviders_events roots st) →
  i ∈ oid <$> JsMap.values (providers st).
Proof.
  intros Hwf Hi.
  destruct (run_shape roots st Hwf)
    as (added & evs1 & td & _ & _ & _ & _ & Htd & _ & _ & _ & Hdis & _
        & _ & _ & _ & Hev).
  rewrite Hev in Hi. unfold disposed in *. rewrite omap_app, Hdis in Hi. simpl in Hi.
  fold (disposed (staleEvents (providers st ++ added) td)) in Hi.
  rewrite disposed_stale in Hi.
  apply list_elem_of_omap in Hi as (k & Hk & Ho).
  apply Htd in Hk as [Hk _]. rewrite get_app in Ho.
  destruct (JsMap.get k (providers st)) as [q|] eqn:Hg.
  - injection Ho as <-. apply list_elem_of_fmap_2.
    apply get_Some_elem in Hg. apply list_elem_of_fmap. by exists (k, q).
  - by apply get_None_iff in Hg.
Qed.

(** What is registered after a reconciliation was registered before it or
    came from the factory during it. *)
Lemma values_run roots st p :
  JsMap.wf (providers st) →
  p ∈ JsMap.values (providers (updateProviders roots st)) →
  p ∈ JsMap.values (providers st) ∨ (allocated st ≤ oid p)%nat.
Proof.
  intros Hwf Hp.
  destruct (run_shape roots st Hwf)
    as (added & evs1 & td & Hadd & _ & _ & _ & _ & _ & _ & _ & _ & _
        & _ & Hsub & _ & _).
  assert (p ∈ (providers st ++ added).*2) as Hin.
  { eapply elem_of_sublist; [exact Hp | apply fmap_sublist, Hsub]. }
  rewrite fmap_app in Hin. apply elem_of_app in Hin as [Hin|Hin]; [by left|].
  right. apply list_elem_of_fmap in Hin as ([k q] & -> & Hin).
  by destruct (Hadd k q Hin) as (_ & _ & ? & _).
Qed.

Lemma allocated_run roots st :
  JsMap.wf (providers st) →
  (allocated st ≤ allocated (updateProviders roots st))%nat.
Proof.
  intros Hwf.
  by destruct (run_shape roots st Hwf)
    as (added & evs1 & td & _ & _ & _ & _ & _ & _ & _ & _ & _ & _
        & _ & _ & Hal & _).
Qed.

(** Over any number of reconciliations, what is disposed of was registered
    at the start or came from the factory since. *)
Lemma disposed_all_registered changes st i :
  registry_ok st →
  i ∈ disposed (reconcileAll changes st).2 →
  i ∈ oid <$> JsMap.values (providers st) ∨ (allocated st ≤ i)%nat.
Proof.
  revert st. induction changes as [|roots more IH]; intros st Hok Hi.
  - by apply elem_of_nil in Hi.
  - simpl in Hi. pose proof Hok as (Hwf & _ & _).
    destruct (reconcileAll more (updateProviders roots st)) as [st' evs] eqn:Hrec.
    simpl in Hi. unfold disposed in Hi. rewrite omap_app in Hi.
    apply elem_of_app in Hi as [Hi|Hi].
    + left. by apply (disposed_run_registered roots).
    + specialize (IH (updateProviders roots st)
                     (updateProviders_registry_ok roots st Hok)).
      rewrite Hrec in IH. specialize (IH Hi).
      pose proof (allocated_run roots st Hwf) as Hal.
      destruct IH as [Hreg|Hnew]; [|right; lia].
      apply list_elem_of_fmap in Hreg as (q & -> & Hq).
      apply (values_run roots st q Hwf) in Hq as [Hq|Hq]; [|by right].
      left. by apply list_elem_of_fmap_2.
Qed.

(** C2. After a reconciliation for the folders [roots], the registry
    holds no identity string twice, it holds at most four resolvers per
    folder, its identities are those of the desired set, and for every
    folder of [roots], every configuration directory and every
    configuration file there is exactly one resolver registered under the
    identity of that combination. *)
Theorem C2_registry_is_desired_set roots st :
  JsMap.wf (providers st) →
  JsMap.wf (providers (updateProviders roots st)) ∧
  (length (providers (updateProviders roots st)) ≤ 4 * length roots)%nat ∧
  (∀ k, k ∈ JsMap.keys (providers (updateProviders roots st)) ↔
        k ∈ desiredKeys roots) ∧
  (∀ f d n, f ∈ roots → d ∈ configPaths → n ∈ configFileNames →
     exists! p, (keyOf (f, d, n), p) ∈ providers (updateProviders roots st)).
Proof.
  intros Hwf.
  pose proof (updateProviders_wf roots st Hwf) as Hwf'.
  split_and!.
  - done.
  - rewrite <- length_desired.
    rewrite <- (length_fmap keyOf (desired roots)).
    rewrite <- (length_fmap fst (providers (updateProviders roots st))).
    apply submseteq_length, NoDup_submseteq; [exact Hwf'|].
    intros k Hk. by apply (updateProviders_keys roots st k Hwf).
  - intros k. by apply updateProviders_keys.
  - intros f d n Hf Hd Hn.
    pose proof (desiredKeys_intro roots f d n Hf Hd Hn) as Hk.
    apply (updateProviders_keys roots st _ Hwf) in Hk.
    destruct (JsMap.get (keyOf (f, d, n)) (providers (updateProviders roots st)))
      as [p|] eqn:Hg; [|by apply get_None_iff in Hg].
    exists p. split.
    + by apply get_Some_elem.
    + intros q Hq. apply (elem_get _ _ _ Hwf') in Hq. congruence.
Qed.

(** C7. A resolver that is registered before a reconciliation under an
    identity of the desired set is registered under it afterwards, the
    very same object: the reconciliation neither disposes of it, nor
    obtains it anew from the factory, nor stores anything under its key,
    nor deletes its key. This is so in particular for the resolvers of a
    folder that stays among the roots. *)
Theorem C7_persisting_resolver_kept roots st k p :
  registry_ok st →
  JsMap.get k (providers st) = Some p →
  k ∈ desiredKeys roots →
  JsMap.get k (providers (updateProviders roots st)) = Some p ∧
  (oid p ∉ disposed (updateProviders_events roots st)) ∧
  (oid p ∉ created (updateProviders_events roots st)) ∧
  (k ∉ inserted (updateProviders_events roots st)) ∧
  (k ∉ removed (updateProviders_events roots st)).
Proof.
  intros Hok Hg Hk. pose proof Hok as (Hwf & Hoids & Hlt).
  destruct (run_shape roots st Hwf)
    as (added & evs1 & td & Hadd & _ & _ & _ & Htd & _ & Hcr & Hins & Hdis & Hrem
        & Hget & _ & _ & Hev).
  assert (Hktd : k ∉ td) by (intros Hin; apply Htd in Hin as [_ ?]; done).
  assert (Hstale : ∀ k', k' ∈ td →
            JsMap.get k' (providers st ++ added) = JsMap.get k' (providers st)).
  { intros k' Hk'. apply Htd in Hk' as [Hk' _]. rewrite get_app.
    destruct (JsMap.get k' (providers st)) eqn:Hg'; [done|].
    by apply get_None_iff in Hg'. }
  rewrite Hev. split_and!.
  - rewrite Hget, decide_False by done. rewrite get_app. by rewrite Hg.
  - unfold disposed in *. rewrite omap_app, Hdis. simpl.
    fold (disposed (staleEvents (providers st ++ added) td)).
    rewrite disposed_stale. intros Hin.
    apply list_elem_of_omap in Hin as (k' & Hk' & Ho).
    rewrite (Hstale k' Hk') in Ho.
    destruct (JsMap.get k' (providers st)) as [q|] eqn:Hg'; [|done].
    injection Ho as Ho.
    assert (k = k') as <- by (eapply registry_ok_key_of_oid; eauto).
    done.
  - unfold created in *. rewrite omap_app, Hcr.
    fold (created (staleEvents (providers st ++ added) td)).
    rewrite created_stale, app_nil_r. intros Hin.
    apply list_elem_of_fmap in Hin as (q & Hq & Hqin).
    apply list_elem_of_fmap in Hqin as ([k' q'] & -> & Hin).
    destruct (Hadd k' q' Hin) as (_ & _ & Hge & _).
    rewrite Forall_forall in Hlt.
    assert (p ∈ JsMap.values (providers st)) as Hp.
    { apply get_Some_elem in Hg. apply list_elem_of_fmap. by exists (k, p). }
    specialize (Hlt p Hp). simpl in *. lia.
  - unfold inserted in *. rewrite omap_app, Hins.
    fold (inserted (staleEvents (providers st ++ added) td)).
    rewrite inserted_stale, app_nil_r. intros Hin.
    apply list_elem_of_fmap in Hin as ([k' q'] & -> & Hin).
    destruct (Hadd k' q' Hin) as (_ & Hn & _). simpl in *.
    apply Hn. apply get_Some_elem in Hg. apply list_elem_of_fmap. by exists (k', p).
  - unfold removed in *. rewrite omap_app, Hrem.
    fold (removed (staleEvents (providers st ++ added) td)).
    rewrite removed_stale. simpl. intros Hin.
    apply list_elem_of_filter in Hin as [_ Hin]. done.
Qed.

(** C8. A resolver registered under an identity that is no longer desired
    (its folder has left the roots) is, by the next reconciliation,
    removed from the registry and disposed of: [dispose] is called on it
    exactly once, right after its key is deleted, and nothing is stored
    under that key during the reconciliation. No later reconciliation
    disposes of it again, so it is never disposed of after a replacement
    has been registered under its identity. *)
Theorem C8_removed_identity_disposed_once roots st k p :
  registry_ok st →
  JsMap.get k (providers st) = Some p →
  k ∉ desiredKeys roots →
  JsMap.get k (providers (updateProviders roots st)) = None ∧
  (oid p ∉ oid <$> JsMap.values (providers (updateProviders roots st))) ∧
  length (filter (λ i, i = oid p)
                 (disposed (updateProviders_events roots st))) = 1%nat ∧
  (k ∉ inserted (updateProviders_events roots st)) ∧
  (∃ pre post,
     updateProviders_events roots st = pre ++ [EvDelete k; EvDispose p] ++ post) ∧
  (∀ later,
     oid p ∉ disposed (reconcileAll later (updateProviders roots st)).2).
Proof.
  intros Hok Hg Hk. pose proof Hok as (Hwf & Hoids & Hlt).
  pose proof (updateProviders_wf roots st Hwf) as Hwf'.
  destruct (run_shape roots st Hwf)
    as (added & evs1 & td & Hadd & _ & _ & _ & Htd & Hntd & Hcr & Hins & Hdis & Hrem
        & Hget & _ & Hal & Hev).
  assert (Hkst : k ∈ JsMap.keys (providers st)).
  { apply get_Some_elem in Hg. apply list_elem_of_fmap. by exists (k, p). }
  assert (Hktd : k ∈ td) by (by apply Htd).
  assert (Hstale : ∀ k', k' ∈ td →
            JsMap.get k' (providers st ++ added) = JsMap.get k' (providers st)).
  { intros k' Hk'. apply Htd in Hk' as [Hk' _]. rewrite get_app.
    destruct (JsMap.get k' (providers st)) eqn:Hg'; [done|].
    by apply get_None_iff in Hg'. }
  assert (Hpin : p ∈ JsMap.values (providers st)).
  { apply get_Some_elem in Hg. apply list_elem_of_fmap. by exists (k, p). }
  assert (Hplt : (oid p < allocated st)%nat).
  { rewrite Forall_forall in Hlt. by apply Hlt. }
  assert (Hgone : oid p ∉ oid <$> JsMap.values (providers (updateProviders roots st))).
  { intros Hin. apply list_elem_of_fmap in Hin as (q & Ho & Hin).
    apply list_elem_of_fmap in Hin as ([k' q'] & -> & Hin).
    apply (elem_get _ _ _ Hwf') in Hin. rewrite Hget in Hin.
    destruct (decide (k' ∈ td)) as [|Hn]; [done|].
    rewrite get_app in Hin. simpl in *.
    destruct (JsMap.get k' (providers st)) as [q|] eqn:Hg'.
    + injection Hin as ->.
      assert (k = k') as <- by (eapply registry_ok_key_of_oid; eauto). done.
    + apply get_Some_elem in Hin.
      destruct (Hadd k' q' Hin) as (_ & _ & Hge & _). lia. }
  split_and!.
  - rewrite Hget. by rewrite decide_True.
  - exact Hgone.
  - rewrite Hev. unfold disposed in *. rewrite omap_app, Hdis. simpl.
    fold (disposed (staleEvents (providers st ++ added) td)).
    rewrite disposed_stale.
    apply (count_omap_once _ td k); [done|done| |].
    + rewrite (Hstale k Hktd), Hg. done.
    + intros y Hy Hne Hgy. rewrite (Hstale y Hy) in Hgy.
      destruct (JsMap.get y (providers st)) as [q|] eqn:Hg'; [|done].
      injection Hgy as Ho. apply Hne. symmetry.
      eapply registry_ok_key_of_oid; eauto.
  - rewrite Hev. unfold inserted in *. rewrite omap_app, Hins.
    fold (inserted (staleEvents (providers st ++ added) td)).
    rewrite inserted_stale, app_nil_r. intros Hin.
    apply list_elem_of_fmap in Hin as ([k' q'] & -> & Hin).
    by destruct (Hadd k' q' Hin) as (_ & Hn & _).
  - apply list_elem_of_split in Hktd as (t1 & t2 & ->).
    exists (evs1 ++ staleEvents (providers st ++ added) t1),
           (staleEvents (providers st ++ added) t2).
    rewrite Hev, staleEvents_app, staleEvents_cons.
    rewrite get_app, Hg. by rewrite <- !app_assoc.
  - intros later Hin.
    apply disposed_all_registered in Hin as [Hin|Hin];
      [done | lia | by apply updateProviders_registry_ok].
Qed.
End ReconcilerFacts.

(** On the sample instance. *)

Lemma C2_witness :
  JsMap.wf (providers (updateProviders [Sample.rootA; Sample.rootB] initial)) ∧
  (length (providers (updateProviders [Sample.rootA; Sample.rootB] initial))
     ≤ 4 * length [Sample.rootA; Sample.rootB])%nat ∧
  (∀ k, k ∈ JsMap.keys (providers (updateProviders [Sample.rootA; Sample.rootB] initial)) ↔
        k ∈ desiredKeys [Sample.rootA; Sample.rootB]) ∧
  (∀ f d n, f ∈ [Sample.rootA; Sample.rootB] → d ∈ configPaths → n ∈ configFileNames →
     exists! p, (keyOf (f, d, n), p)
                ∈ providers (updateProviders [Sample.rootA; Sample.rootB] initial)).
Proof.
  apply (C2_registry_is_desired_set [Sample.rootA; Sample.rootB] initial).
  apply NoDup_nil_2.
Defined.

Lemma sampleRegistry_ok : registry_ok sampleRegistry.
Proof. apply updateProviders_registry_ok, registry_ok_initial. Defined.

Lemma C7_witness :
  let k := "/root/b/.theia/launch.json" in
  let p := {| oid := 4;
              options := {| folder := Sample.rootB;
                            configUri := ["root"; "b"; ".theia"; "launch.json"] |} |} in
  JsMap.get k (providers (updateProviders [Sample.rootB] sampleRegistry)) = Some p ∧
  (oid p ∉ disposed (updateProviders_events [Sample.rootB] sampleRegistry)) ∧
  (oid p ∉ created (updateProviders_events [Sample.rootB] sampleRegistry)) ∧
  (k ∉ inserted (updateProviders_events [Sample.rootB] sampleRegistry)) ∧
  (k ∉ removed (updateProviders_events [Sample.rootB] sampleRegistry)).
Proof.
  apply (C7_persisting_resolver_kept [Sample.rootB] sampleRegistry).
  - exact sampleRegistry_ok.
  - reflexivity.
  - vm_compute. left.
Defined.

Lemma C8_witness :
  let k := "/root/a/.theia/settings.json" in
  let p := {| oid := 1;
              options := {| folder := Sample.rootA;
                            configUri := ["root"; "a"; ".theia"; "settings.json"] |} |} in
  JsMap.get k (providers (updateProviders [Sample.rootB] sampleRegistry)) = None ∧
  (oid p ∉ oid <$> JsMap.values (providers (updateProviders [Sample.rootB] sampleRegistry))) ∧
  length (filter (λ i, i = oid p)
                 (disposed (updateProviders_events [Sample.rootB] sampleRegistry))) = 1%nat ∧
  (k ∉ inserted (updateProviders_events [Sample.rootB] sampleRegistry)) ∧
  (∃ pre post,
     updateProviders_events [Sample.rootB] sampleRegistry =
     pre ++ [EvDelete k; EvDispose p] ++ post) ∧
  (∀ later,
     oid p ∉ disposed (reconcileAll later (updateProviders [Sample.rootB] sampleRegistry)).2).
Proof.
  apply (C8_removed_identity_disposed_once [Sample.rootB] sampleRegistry).
  - exact sampleRegistry_ok.
  - reflexivity.
  - apply (bool_decide_unpack _). vm_compute. exact I.
Defined.

(** ** The ranking of [getProviders] *)

Section RankingFacts.
Context `{UriOps} {World : Type} (api : Collaborators World).
Variables (r : string) (w : World).
Implicit Types (p : FolderPreferenceProvider) (ps : list FolderPreferenceProvider).

Lemma fold_max_snoc (l : list Z) (a x : Z) :
  fold_left Z.max (l ++ [x]) a = Z.max (fold_left Z.max l a) x.
Proof. by rewrite fold_left_app. Qed.

Lemma fold_max_start (l : list Z) (a : Z) : a ≤ fold_left Z.max l a.
Proof.
  induction l as [|x l IH] using rev_ind; [simpl; lia|].
  rewrite fold_max_snoc. lia.
Qed.

Lemma fold_max_bound (l : list Z) (a x : Z) : x ∈ l → x ≤ fold_left Z.max l a.
Proof.
  induction l as [|y l IH] using rev_ind; intros Hx.
  - by apply elem_of_nil in Hx.
  - rewrite fold_max_snoc. apply elem_of_app in Hx as [Hx|Hx].
    + specialize (IH Hx). lia.
    + apply list_elem_of_singleton in Hx as ->. lia.
Qed.

Lemma bestRelativity_snoc ps p :
  bestRelativity api r w (ps ++ [p]) =
  if applies api r w p
  then Z.max (bestRelativity api r w ps) (relativityOf r p)
  else bestRelativity api r w ps.
Proof.
  unfold bestRelativity. rewrite filter_app, filter_cons, filter_nil.
  destruct (applies api r w p) eqn:Ha.
  - rewrite decide_True by done. rewrite fmap_app. simpl. by rewrite fold_max_snoc.
  - rewrite decide_False by (by intros []). by rewrite app_nil_r.
Qed.

Lemma bestRelativity_bound ps p :
  p ∈ ps → applies api r w p = true → relativityOf r p ≤ bestRelativity api r w ps.
Proof.
  intros Hp Ha. unfold bestRelativity. apply fold_max_bound.
  apply list_elem_of_fmap_2, list_elem_of_filter. split; [by rewrite Ha | done].
Qed.

Lemma bestRelativity_ge ps : -1 ≤ bestRelativity api r w ps.
Proof. apply fold_max_start. Qed.

Lemma rankStep_eq rel byRel p :
  rankStep api (Some r) (URI_path (URI_new r)) w (rel, byRel) p =
  if applies api r w p && (rel <=? relativityOf r p)
  then (relativityOf r p,
        JsMap.set (relativityOf r p)
          (addToGroup api r w
             (default [] (JsMap.get (relativityOf r p) byRel)) p)
          byRel)
  else (rel, byRel).
Proof.
  unfold rankStep, applies, addToGroup, groupKey, relativityOf.
  destruct (p_getConfigUri api p (Some r) w) as [c|]; [|done].
  by destruct (0 <=? _), (rel <=? _).
Qed.

(** The first group of a level holds, in order, the providers that share
    the directory of the first provider of the level. *)
Lemma grouping_from k0 v0 rest (l : list FolderPreferenceProvider) :
  ∃ rest',
    fold_left (addToGroup api r w) l ((k0, v0) :: rest) =
    (k0, v0 ++ filter (λ p, groupKey api r w p = k0) l) :: rest'.
Proof.
  revert v0 rest. induction l as [|p l IH]; intros v0 rest.
  - exists rest. simpl. by rewrite app_nil_r.
  - simpl. unfold addToGroup at 2. simpl.
    rewrite filter_cons.
    destruct (decide (groupKey api r w p = k0)) as [Heq|Hne].
    + destruct (IH (v0 ++ [p]) rest) as [rest' Hr].
      exists rest'. rewrite Heq. simpl. rewrite Hr. by rewrite <- app_assoc.
    + destruct (IH v0 (JsMap.set (groupKey api r w p)
                         (default [] (JsMap.get (groupKey api r w p) rest) ++ [p])
                         rest)) as [rest' Hr].
      exists rest'. by rewrite Hr.
Qed.

Lemma grouping_first (l : list FolderPreferenceProvider) :
  match JsMap.values (fold_left (addToGroup api r w) l []) with
  | first :: _ => first
  | [] => []
  end =
  match l with
  | [] => []
  | p0 :: _ => filter (λ p, groupKey api r w p = groupKey api r w p0) l
  end.
Proof.
  destruct l as [|p0 l]; [done|].
  simpl. unfold addToGroup at 2. simpl.
  destruct (grouping_from (groupKey api r w p0) [p0] [] l) as [rest' ->].
  simpl. rewrite filter_cons, decide_True by done. done.
Qed.

Lemma topLevel_snoc_skip ps p :
  applies api r w p && (bestRelativity api r w ps <=? relativityOf r p) = false →
  bestRelativity api r w (ps ++ [p]) = bestRelativity api r w ps ∧
  topLevel api r w (ps ++ [p]) = topLevel api r w ps.
Proof.
  intros Hc. unfold topLevel. rewrite bestRelativity_snoc.
  rewrite filter_app, filter_cons, filter_nil.
  destruct (applies api r w p) eqn:Ha; simpl in Hc.
  - apply Z.leb_gt in Hc.
    rewrite Z.max_l by lia. split; [done|].
    rewrite decide_True by done.
    rewrite filter_app, filter_cons, filter_nil.
    rewrite decide_False by lia. by rewrite app_nil_r.
  - split; [done|]. rewrite decide_False by (by intros []). by rewrite app_nil_r.
Qed.

Lemma topLevel_snoc_take ps p :
  applies api r w p = true →
  bestRelativity api r w ps ≤ relativityOf r p →
  bestRelativity api r w (ps ++ [p]) = relativityOf r p ∧
  topLevel api r w (ps ++ [p]) =
    (if decide (bestRelativity api r w ps = relativityOf r p)
     then topLevel api r w ps else []) ++ [p].
Proof.
  intros Ha Hle. unfold topLevel. rewrite bestRelativity_snoc, Ha.
  rewrite Z.max_r by lia. split; [done|].
  rewrite filter_app, filter_cons, filter_nil, decide_True by (by rewrite Ha).
  rewrite filter_app, filter_cons, filter_nil, decide_True by done.
  f_equal. destruct (decide (bestRelativity api r w ps = relativityOf r p)) as [Heq|Hne].
  - by rewrite Heq.
  - apply elem_of_nil_inv. intros q Hq.
    apply list_elem_of_filter in Hq as [Hq1 Hq2].
    apply list_elem_of_filter in Hq2 as [Hq2 Hq3].
    pose proof (bestRelativity_bound ps q Hq3) as Hb.
    destruct (applies api r w q); [|done]. specialize (Hb eq_refl). lia.
Qed.

(** What the loop of [getProviders] holds after the providers [ps]. *)
Lemma rank_loop ps :
  let acc := fold_left (rankStep api (Some r) (URI_path (URI_new r)) w) ps (-1, []) in
  acc.1 = bestRelativity api r w ps ∧
  (∀ z, acc.1 < z → JsMap.get z acc.2 = None) ∧
  (acc.1 < 0 → acc.2 = []) ∧
  (0 ≤ acc.1 →
   JsMap.get acc.1 acc.2 =
     Some (fold_left (addToGroup api r w) (topLevel api r w ps) [])).
Proof.
  induction ps as [|p ps IH] using rev_ind.
  - simpl. split_and!; [done|done|done|lia].
  - rewrite fold_left_app. simpl in *.
    destruct (fold_left (rankStep api (Some r) (URI_path (URI_new r)) w) ps (-1, []))
      as [rel byRel].
    simpl in IH. destruct IH as (Hrel & Hnone & Hneg & Hpos).
    rewrite rankStep_eq. subst rel.
    destruct (applies api r w p && (bestRelativity api r w ps <=? relativityOf r p))
      eqn:Hc.
    + apply andb_true_iff in Hc as [Ha Hle]. apply Z.leb_le in Hle.
      destruct (topLevel_snoc_take ps p Ha Hle) as [Hb Ht].
      assert (0 ≤ relativityOf r p) as Hnn.
      { unfold applies in Ha. destruct (p_getConfigUri api p (Some r) w); [|done].
        by apply Z.leb_le. }
      simpl. rewrite Hb, Ht. split_and!.
      * done.
      * intros z Hz. rewrite get_set, decide_False by lia. apply Hnone. lia.
      * lia.
      * intros _. rewrite get_set, decide_True by done. f_equal.
        rewrite fold_left_app. simpl. f_equal.
        destruct (decide (bestRelativity api r w ps = relativityOf r p)) as [Heq|Hne].
        { rewrite <- Heq. rewrite Hpos by lia. done. }
        rewrite Hnone by lia. done.
    + destruct (topLevel_snoc_skip ps p Hc) as [Hb Ht].
      simpl. rewrite Hb, Ht. done.
Qed.

(** [getProviders] computes the ranking of the specification. *)
Lemma getProviders_ranked st :
  r ≠ "" →
  getProviders api st (Some r) w = ranked api r w (JsMap.values (providers st)).
Proof.
  intros Hr. unfold getProviders, ranked.
  destruct r as [|c r'] eqn:Er; [done|]. rewrite <- Er in *.
  pose proof (rank_loop (JsMap.values (providers st))) as Hl. simpl in Hl.
  destruct (fold_left (rankStep api (Some r) (URI_path (URI_new r)) w)
              (JsMap.values (providers st)) (-1, [])) as [rel byRel].
  simpl in Hl. destruct Hl as (Hrel & Hnone & Hneg & Hpos).
  destruct (decide (0 ≤ rel)) as [Hnn|Hn].
  - rewrite Hpos by done. apply grouping_first.
  - rewrite Hneg by lia. simpl.
    destruct (topLevel api r w (JsMap.values (providers st))) as [|q l] eqn:Ht; [done|].
    exfalso. assert (q ∈ topLevel api r w (JsMap.values (providers st))) as Hq
      by (rewrite Ht; left).
    unfold topLevel in Hq. apply list_elem_of_filter in Hq as [Hq1 Hq2].
    apply list_elem_of_filter in Hq2 as [Hq2 _].
    unfold applies in Hq2. destruct (p_getConfigUri api q (Some r) w); [|done].
    apply Is_true_eq_true, Z.leb_le in Hq2. lia.
Qed.
End RankingFacts.

(** ** The queries *)

Section QueryFacts.
Context `{UriOps} {World : Type} (api : Collaborators World).
Implicit Types (p : FolderPreferenceProvider) (ps : list FolderPreferenceProvider)
  (w : World) (r : option string).

(** The writes the loop of [setPreference] invokes: a prefix of the
    ranking, every one but the last returning [false], the last one
    deciding the result. *)
Lemma setPreference_loop_calls ps name v r w calls :
  ∃ invoked,
    (setPreference_loop api ps name v r w calls).2 = calls ++ invoked ∧
    invoked.*1 `prefix_of` ps ∧
    (length (filter (λ c, succeeded c.2) invoked) ≤ 1)%nat ∧
    (∀ pre c post, invoked = pre ++ c :: post → post ≠ [] →
                   c.2 = Returned false) ∧
    ((setPreference_loop api ps name v r w calls).1.1 = Returned true ↔
     ∃ pre p, invoked = pre ++ [(p, Returned true)]).
Proof.
  revert w calls. induction ps as [|p ps IH]; intros w calls.
  - exists []. simpl. rewrite app_nil_r. split_and!; [done|done|lia| |].
    + intros pre c post Heq. by destruct pre.
    + split; [done|]. intros (pre & p & Heq). by destruct pre.
  - simpl. destruct (p_setPreference api p name v r w) as [o w'] eqn:Hw.
    destruct o as [[|]|e].
    + exists [(p, Returned true)]. simpl. split_and!.
      * done.
      * apply prefix_cons, prefix_nil.
      * done.
      * intros pre c post Heq Hpost. destruct pre as [|x pre]; simpl in Heq.
        { injection Heq as _ <-. done. }
        injection Heq as _ Heq. by destruct pre.
      * split; [|done]. intros _. by exists [], p.
    + destruct (IH w' (calls ++ [(p, Returned false)]))
        as (invoked & Hc & Hpre & Hcount & Hfail & Hres).
      exists ((p, Returned false) :: invoked). split_and!.
      * rewrite Hc. by rewrite <- app_assoc.
      * simpl. by apply prefix_cons.
      * rewrite filter_cons, decide_False by (simpl; by intros []). done.
      * intros pre c post Heq Hpost. destruct pre as [|x pre]; simpl in Heq.
        { by injection Heq as <- _. }
        injection Heq as _ Heq. by apply (Hfail pre c post).
      * rewrite Hres. split.
        { intros (pre & q & ->). by exists ((p, Returned false) :: pre), q. }
        intros (pre & q & Heq). destruct pre as [|x pre]; simpl in Heq.
        { by injection Heq. }
        injection Heq as _ Heq. by exists pre, q.
    + exists [(p, Threw e)]. simpl. split_and!.
      * done.
      * apply prefix_cons, prefix_nil.
      * simpl. lia.
      * intros pre c post Heq Hpost. destruct pre as [|x pre]; simpl in Heq.
        { injection Heq as _ <-. done. }
        injection Heq as _ Heq. by destruct pre.
      * split; [done|]. intros (pre & q & Heq).
        destruct pre as [|x pre]; simpl in Heq; [by injection Heq|].
        injection Heq as _ Heq. by destruct pre.
Qed.

(** C1. One call of [setPreference] invokes the writes of a prefix of the
    ranked resolvers, in order; every invoked write but the last returns
    [false], so at most one write reports success; the call returns
    [true] exactly when the last invoked write reported success. When the
    write of the first ranked resolver (the launch file) reports success,
    it is the only write invoked: the write of the settings file is not
    invoked. *)
Theorem C1_at_most_one_resolver_written st name v r w :
  (setPreference api st name v r w).2.*1 `prefix_of` getProviders api st r w ∧
  (length (filter (λ c, succeeded c.2) (setPreference api st name v r w).2) ≤ 1)%nat ∧
  (∀ pre c post, (setPreference api st name v r w).2 = pre ++ c :: post →
                 post ≠ [] → c.2 = Returned false) ∧
  ((setPreference api st name v r w).1.1 = Returned true ↔
   ∃ pre p, (setPreference api st name v r w).2 = pre ++ [(p, Returned true)]) ∧
  (∀ launch rest w',
     getProviders api st r w = launch :: rest →
     p_setPreference api launch name v r w = (Returned true, w') →
     setPreference api st name v r w =
       (Returned true, w', [(launch, Returned true)])).
Proof.
  unfold setPreference.
  destruct (setPreference_loop_calls (getProviders api st r w) name v r w [])
    as (invoked & Hc & Hpre & Hcount & Hfail & Hres).
  simpl in Hc. rewrite Hc. split_and!; try done.
  intros launch rest w' Hps Hw. rewrite Hps. simpl. by rewrite Hw.
Qed.

(** C10. Without a resource URI (missing, or the empty string) the
    ranking is empty, and [setPreference] returns [false] without
    invoking a write and without touching the world. *)
Theorem C10_no_resource_no_write st name v w :
  getProviders api st None w = [] ∧
  setPreference api st name v None w = (Returned false, w, []) ∧
  getProviders api st (Some "") w = [] ∧
  setPreference api st name v (Some "") w = (Returned false, w, []).
Proof. done. Qed.

(** The loop of [resolve] answers with the first provider that has a
    value, and with the empty result when none has. *)
Lemma resolve_loop_first ps name r w :
  (∃ pre p post,
     ps = pre ++ p :: post ∧
     Forall (λ q, isDefined (value (p_resolve api q name r w)) = false) pre ∧
     isDefined (value (p_resolve api p name r w)) = true ∧
     resolve_loop api ps name r w = p_resolve api p name r w) ∨
  (Forall (λ q, isDefined (value (p_resolve api q name r w)) = false) ps ∧
   resolve_loop api ps name r w = emptyResult).
Proof.
  induction ps as [|p ps IH]; simpl.
  - right. by split.
  - destruct (isDefined (value (p_resolve api p name r w))) eqn:Hd.
    + left. exists [], p, ps. split_and!; [done|done|done|].
      by destruct (p_resolve api p name r w).
    + destruct IH as [(pre & q & post & -> & Hpre & Hq & Hres)|[Hall Hres]].
      * left. exists (p :: pre), q, post. split_and!; [done| |done|done].
        by constructor.
      * right. split; [by constructor | done].
Qed.

Lemma ranked_unfold (r' : string) w ps p :
  p ∈ ranked api r' w ps →
  p ∈ ps ∧ applies api r' w p = true ∧
  relativityOf r' p = bestRelativity api r' w ps ∧
  ∃ p0 rest, topLevel api r' w ps = p0 :: rest ∧
             groupKey api r' w p = groupKey api r' w p0.
Proof.
  unfold ranked. destruct (topLevel api r' w ps) as [|p0 rest] eqn:Ht.
  - intros Hp. by apply elem_of_nil in Hp.
  - intros Hp. apply list_elem_of_filter in Hp as [Hg Hp].
    rewrite <- Ht in Hp. unfold topLevel in Hp.
    apply list_elem_of_filter in Hp as [Hrel Hp].
    apply list_elem_of_filter in Hp as [Ha Hp].
    split_and!; [done|by apply Is_true_eq_true|done|by exists p0, rest].
Qed.

(** Everything [getProviders] returns is registered, applies to the
    resource, and sits at the greatest relativity in one directory. *)
Lemma getProviders_members st (r' : string) w p q :
  p ∈ getProviders api st (Some r') w →
  q ∈ getProviders api st (Some r') w →
  p ∈ JsMap.values (providers st) ∧
  applies api r' w p = true ∧
  relativityOf r' p = relativityOf r' q ∧
  groupKey api r' w p = groupKey api r' w q.
Proof.
  destruct (decide (r' = "")) as [->|Hr].
  - intros Hp. by apply elem_of_nil in Hp.
  - rewrite getProviders_ranked by done. intros Hp Hq.
    apply ranked_unfold in Hp as (Hp & Ha & Hrel & p0 & rest & Ht & Hg).
    apply ranked_unfold in Hq as (_ & _ & Hrel' & p0' & rest' & Ht' & Hg').
    rewrite Ht in Ht'. injection Ht' as <- <-.
    split_and!; [done|done|congruence|congruence].
Qed.

(** C3. [resolve] goes through the ranked resolvers in order and answers
    what the first one with a value other than [undefined] and [null]
    answers: its value, with the configuration URI it reports, which is
    the URI of its backing file whenever resolvers report that. When no
    ranked resolver has such a value the result is empty. The ranked
    resolvers all sit in one directory at one relativity, so a resolver
    of another group is never consulted. *)
Theorem C3_first_defined_in_winning_group st name r w :
  ((∃ pre p post,
      getProviders api st r w = pre ++ p :: post ∧
      Forall (λ q, isDefined (value (p_resolve api q name r w)) = false) pre ∧
      isDefined (value (p_resolve api p name r w)) = true ∧
      resolve api st name r w = p_resolve api p name r w ∧
      (resultUri (p_resolve api p name r w) = Some (configUri (options p)) →
       resultUri (resolve api st name r w) = Some (configUri (options p)))) ∨
   (Forall (λ q, isDefined (value (p_resolve api q name r w)) = false)
           (getProviders api st r w) ∧
    resolve api st name r w = emptyResult)) ∧
  (∀ (r' : string) p q, r = Some r' →
     p ∈ getProviders api st r w → q ∈ getProviders api st r w →
     relativityOf r' p = relativityOf r' q ∧
     groupKey api r' w p = groupKey api r' w q).
Proof.
  split.
  - unfold resolve.
    destruct (resolve_loop_first (getProviders api st r w) name r w)
      as [(pre & p & post & Hps & Hpre & Hp & Hres)|[Hall Hres]].
    + left. exists pre, p, post. split_and!; try done. by rewrite Hres.
    + by right.
  - intros r' p q -> Hp Hq.
    by destruct (getProviders_members st r' w p q Hp Hq) as (_ & _ & ? & ?).
Qed.

Lemma fold_assign_lookup ps w key :
  fold_left (λ result provider,
               Object_assign result (p_getPreferences api provider w))
            (reverse ps) ∅ !! key
  = firstWith api key w ps.
Proof.
  induction ps as [|p ps IH]; [done|].
  rewrite reverse_cons, fold_left_app. simpl. unfold Object_assign at 1.
  destruct (p_getPreferences api p w !! key) as [v|] eqn:Hk.
  - by apply lookup_union_Some_l.
  - rewrite lookup_union_r by done. apply IH.
Qed.
End QueryFacts.

(** C5. [getPreferences] merges the preferences of the ranked resolvers
    from the last to the first with [Object.assign]: a key of the result
    has the value of the first ranked resolver that has the key, and a key
    no ranked resolver has is absent. With a launch file [{a:1}] and a
    settings file [{a:2, b:3}] the result is [{a:1, b:3}]. *)
Theorem C5_merge_in_reverse_priority :
  (∀ (U : UriOps) (World : Type) (api : Collaborators World)
     (st : FoldersState) (r : option string) (w : World),
     getPreferences api st r w =
       fold_left (λ result provider,
                    Object_assign result (p_getPreferences api provider w))
                 (reverse (getProviders api st r w)) ∅ ∧
     ∀ key, getPreferences api st r w !! key
            = firstWith api key w (getProviders api st r w)) ∧
  getPreferences Sample.fileApi sampleRegistry sampleResource mergeFiles
    = {[ "a" := VNum 1; "b" := VNum 3 ]}.
Proof.
  split.
  - intros U World api st r w. split; [done|].
    intros key. apply fold_assign_lookup.
  - by vm_compute.
Qed.

(** ** One folder with both directories *)

Section OneFolder.
Context `{UriOps} {World : Type} (api : Collaborators World).
Variable f : WorkspaceFolder.

(** A first reconciliation with the single root [f] registers its four
    providers in the order of the two axes. *)
Lemma updateProviders_single :
  NoDup (keyOf <$> locationsOf f) →
  providers (updateProviders [f] initial) =
    [ (keyOf (f, ".theia", "launch.json"), providerOf 0 f ".theia" "launch.json");
      (keyOf (f, ".theia", "settings.json"), providerOf 1 f ".theia" "settings.json");
      (keyOf (f, ".vscode", "launch.json"), providerOf 2 f ".vscode" "launch.json");
      (keyOf (f, ".vscode", "settings.json"), providerOf 3 f ".vscode" "settings.json") ].
Proof.
  intros Hnd. simpl in Hnd.
  apply NoDup_cons in Hnd as [H1 Hnd]. apply NoDup_cons in Hnd as [H2 Hnd].
  apply NoDup_cons in Hnd as [H3 _].
  apply not_elem_of_cons in H1 as [H12 H1]. apply not_elem_of_cons in H1 as [H13 H1].
  apply not_elem_of_cons in H1 as [H14 _].
  apply not_elem_of_cons in H2 as [H23 H2]. apply not_elem_of_cons in H2 as [H24 _].
  apply not_elem_of_cons in H3 as [H34 _].
  unfold updateProviders, updateProviders_run. rewrite fold_visitFolder.
  unfold desired. simpl.
  rewrite (visit_absent _ (f, ".theia", "launch.json")) by reflexivity. simpl.
  rewrite (visit_absent _ (f, ".theia", "settings.json"));
    [|apply has_false_iff; simpl; by rewrite decide_False]. simpl.
  rewrite (visit_absent _ (f, ".vscode", "launch.json"));
    [|apply has_false_iff; simpl; by rewrite !decide_False]. simpl.
  rewrite (visit_absent _ (f, ".vscode", "settings.json"));
    [|apply has_false_iff; simpl; by rewrite !decide_False]. simpl.
  done.
Qed.

(** C4. In a workspace whose single folder [f] encloses the resource,
    the registry lists the providers of the primary directory before
    those of the secondary directory, the ranking is the group of the
    primary directory (its launch file, then its settings file), and when
    the launch file has no value for the key, the settings file of the
    primary directory says [1] and the one of the secondary directory
    says [2], [resolve] answers [1]. *)
Theorem C4_primary_directory_wins (r name : string) (w : World) :
  NoDup (keyOf <$> locationsOf f) →
  r ≠ "" →
  0 ≤ Path_relativity (URI_path (URI_new (uri f))) (URI_path (URI_new r)) →
  (∀ d n, d ∈ configPaths → n ∈ configFileNames → ∀ i,
     p_getConfigUri api (providerOf i f d n) (Some r) w
       = Some (configUriOf f d n)) →
  (∀ d n, d ∈ configPaths → n ∈ configFileNames →
     URI_toString (URI_parent (configUriOf f d n))
       = URI_toString (URI_resolve (URI_new (uri f)) d)) →
  URI_toString (URI_resolve (URI_new (uri f)) ".theia")
    ≠ URI_toString (URI_resolve (URI_new (uri f)) ".vscode") →
  isDefined (value (p_resolve api (providerOf 0 f ".theia" "launch.json")
                              name (Some r) w)) = false →
  value (p_resolve api (providerOf 1 f ".theia" "settings.json")
                   name (Some r) w) = VNum 1 →
  value (p_resolve api (providerOf 3 f ".vscode" "settings.json")
                   name (Some r) w) = VNum 2 →
  JsMap.keys (providers (updateProviders [f] initial))
    = keyOf <$> locationsOf f ∧
  getProviders api (updateProviders [f] initial) (Some r) w
    = [providerOf 0 f ".theia" "launch.json";
       providerOf 1 f ".theia" "settings.json"] ∧
  value (resolve api (updateProviders [f] initial) name (Some r) w) = VNum 1.
Proof.
  intros Hnd Hr Henc Hcfg Hpar Hdirs Hlaunch Hts Hvs.
  pose proof (updateProviders_single Hnd) as Hreg.
  assert (Hth : ".theia" ∈ configPaths) by left.
  assert (Hvc : ".vscode" ∈ configPaths) by (right; left).
  assert (Hla : "launch.json" ∈ configFileNames) by left.
  assert (Hse : "settings.json" ∈ configFileNames) by (right; left).
  assert (Happ : ∀ d n i, d ∈ configPaths → n ∈ configFileNames →
            applies api r w (providerOf i f d n) = true).
  { intros d n i Hd Hn. unfold applies. rewrite (Hcfg d n Hd Hn i).
    by apply Z.leb_le. }
  assert (Hgrp : ∀ d n i, d ∈ configPaths → n ∈ configFileNames →
            groupKey api r w (providerOf i f d n)
              = URI_toString (URI_resolve (URI_new (uri f)) d)).
  { intros d n i Hd Hn. unfold groupKey. rewrite (Hcfg d n Hd Hn i).
    by apply Hpar. }
  assert (Hrank : getProviders api (updateProviders [f] initial) (Some r) w
            = [providerOf 0 f ".theia" "launch.json";
               providerOf 1 f ".theia" "settings.json"]).
  { rewrite getProviders_ranked by done. rewrite Hreg. simpl.
    set (R := Path_relativity (URI_path (URI_new (uri f))) (URI_path (URI_new r))) in *.
    set (tl := providerOf 0 f ".theia" "launch.json") in *.
    set (ts := providerOf 1 f ".theia" "settings.json") in *.
    set (vl := providerOf 2 f ".vscode" "launch.json") in *.
    set (vs := providerOf 3 f ".vscode" "settings.json") in *.
    assert (Hflt : filter (λ p, applies api r w p) [tl; ts; vl; vs] = [tl; ts; vl; vs]).
    { rewrite filter_cons_True by (unfold tl; by rewrite Happ).
      rewrite filter_cons_True by (unfold ts; by rewrite Happ).
      rewrite filter_cons_True by (unfold vl; by rewrite Happ).
      rewrite filter_cons_True by (unfold vs; by rewrite Happ).
      done. }
    assert (Hbest : bestRelativity api r w [tl; ts; vl; vs] = R).
    { unfold bestRelativity. rewrite Hflt. simpl.
      unfold relativityOf, folderUri. simpl. fold R. lia. }
    assert (Htop : topLevel api r w [tl; ts; vl; vs] = [tl; ts; vl; vs]).
    { unfold topLevel. rewrite Hflt, Hbest.
      by rewrite !filter_cons_True by done. }
    unfold ranked. rewrite Htop.
    rewrite filter_cons_True by done.
    rewrite filter_cons_True by (unfold tl, ts; by rewrite !Hgrp).
    rewrite filter_cons_False
      by (unfold tl, vl; rewrite !Hgrp by done; intros Heq; by apply Hdirs).
    rewrite filter_cons_False
      by (unfold tl, vs; rewrite !Hgrp by done; intros Heq; by apply Hdirs).
    done. }
  split_and!.
  - by rewrite Hreg.
  - exact Hrank.
  - unfold resolve. rewrite Hrank. simpl. rewrite Hlaunch, Hts. done.
Qed.
End OneFolder.

(** ** Folders that do not enclose the resource *)

Section Siblings.
Context `{UriOps} {World : Type} (api : Collaborators World).
Variables (r : string) (w1 w2 : World).

(** A provider whose folder does not enclose the resource leaves the
    state of the loop of [getProviders] as it is. *)
Lemma rankStep_outside w acc p :
  relativityOf r p < 0 →
  rankStep api (Some r) (URI_path (URI_new r)) w acc p = acc.
Proof.
  intros Hneg. destruct acc as [rel byRel]. rewrite rankStep_eq.
  unfold applies. destruct (p_getConfigUri api p (Some r) w); [|done].
  assert ((0 <=? relativityOf r p) = false) as -> by (apply Z.leb_gt; lia).
  done.
Qed.

Lemma rank_fold_agree ps acc :
  (∀ p, p ∈ ps → 0 ≤ relativityOf r p →
        p_getConfigUri api p (Some r) w1 = p_getConfigUri api p (Some r) w2) →
  fold_left (rankStep api (Some r) (URI_path (URI_new r)) w1) ps acc =
  fold_left (rankStep api (Some r) (URI_path (URI_new r)) w2) ps acc.
Proof.
  revert acc. induction ps as [|p ps IH]; intros acc Hag; [done|].
  simpl.
  assert (rankStep api (Some r) (URI_path (URI_new r)) w1 acc p =
          rankStep api (Some r) (URI_path (URI_new r)) w2 acc p) as ->.
  { destruct (decide (0 ≤ relativityOf r p)) as [Hnn|Hneg].
    - unfold rankStep. rewrite (Hag p) by (done || left). done.
    - rewrite !rankStep_outside by lia. done. }
  apply IH. intros q Hq. apply Hag. by right.
Qed.

Lemma resolve_loop_agree ps name :
  (∀ p, p ∈ ps →
        p_resolve api p name (Some r) w1 = p_resolve api p name (Some r) w2) →
  resolve_loop api ps name (Some r) w1 = resolve_loop api ps name (Some r) w2.
Proof.
  induction ps as [|p ps IH]; intros Hag; [done|].
  simpl. rewrite (Hag p) by left.
  destruct (isDefined _); [done|]. apply IH. intros q Hq. apply Hag. by right.
Qed.

(** C6. The resolvers of a folder that does not enclose the resource
    (relativity below 0, as for a sibling folder) never enter the ranked
    list, and the result of [resolve] does not depend on what they
    answer: two worlds in which the resolvers of the enclosing folders
    answer alike give the same ranking and the same result. *)
Theorem C6_sibling_values_do_not_leak st name :
  (∀ p, p ∈ JsMap.values (providers st) → 0 ≤ relativityOf r p →
        p_getConfigUri api p (Some r) w1 = p_getConfigUri api p (Some r) w2 ∧
        p_resolve api p name (Some r) w1 = p_resolve api p name (Some r) w2) →
  (∀ p, p ∈ getProviders api st (Some r) w1 →
        p ∈ JsMap.values (providers st) ∧ 0 ≤ relativityOf r p) ∧
  getProviders api st (Some r) w1 = getProviders api st (Some r) w2 ∧
  resolve api st name (Some r) w1 = resolve api st name (Some r) w2.
Proof.
  intros Hag.
  assert (Hmem : ∀ p, p ∈ getProviders api st (Some r) w1 →
            p ∈ JsMap.values (providers st) ∧ 0 ≤ relativityOf r p).
  { intros p Hp.
    destruct (getProviders_members api st r w1 p p Hp Hp) as (Hin & Ha & _).
    split; [done|]. unfold applies in Ha.
    destruct (p_getConfigUri api p (Some r) w1); [|done]. by apply Z.leb_le. }
  assert (Hsame : getProviders api st (Some r) w1 = getProviders api st (Some r) w2).
  { unfold getProviders. destruct r as [|c r'] eqn:Er; [done|]. rewrite <- Er in *.
    rewrite rank_fold_agree; [done|].
    intros p Hp Hnn. by destruct (Hag p Hp Hnn). }
  split_and!; [done|done|].
  unfold resolve. rewrite <- Hsame. apply resolve_loop_agree.
  intros p Hp. destruct (Hmem p Hp) as [Hin Hnn]. by destruct (Hag p Hin Hnn).
Qed.
End Siblings.

(** ** Readiness *)

Section InitFacts.
Context `{UriOps} {World : Type} (api : Collaborators World).

Lemma Promise_all_caught (l : list Settled) :
  (∀ e, Promise_all ((Promise_catch <$> l).*1) ≠ Rejected e) ∧
  (Promise_all ((Promise_catch <$> l).*1) = Fulfilled ↔
   Forall (λ s, s ≠ Pending) l).
Proof.
  induction l as [|s l [IHr IHf]].
  - simpl. split; [done|]. split; [by constructor | done].
  - rewrite !fmap_cons.
    set (A := Promise_all ((Promise_catch <$> l).*1)) in *.
    destruct s as [| |e]; simpl; fold A.
    + destruct A eqn:Hall.
      * split; [done|]. split; [done|]. intros Hf. by inversion Hf.
      * split; [done|]. split; [done|]. intros Hf. by inversion Hf.
      * by destruct (IHr e).
    + split; [done|]. rewrite IHf. split.
      * intros Hf. by constructor.
      * intros Hf. by inversion Hf.
    + split; [done|]. rewrite IHf. split.
      * intros Hf. by constructor.
      * intros Hf. by inversion Hf.
Qed.

Lemma console_caught (l : list Settled) e :
  e ∈ concat ((Promise_catch <$> l).*2) ↔ Rejected e ∈ l.
Proof.
  induction l as [|s l IH]; simpl.
  - by rewrite !elem_of_nil.
  - rewrite elem_of_app, IH, elem_of_cons. destruct s as [| |e']; simpl.
    + rewrite elem_of_nil. naive_solver.
    + rewrite elem_of_nil. naive_solver.
    + rewrite list_elem_of_singleton. naive_solver.
Qed.

(** C9. Once the roots are known, [init] reconciles and resolves the
    aggregate readiness exactly when the readiness of every resolver
    registered by then has settled, fulfilled or rejected; the promise
    the aggregate waits for is never rejected; and what is printed are
    the reasons of the resolvers whose readiness was rejected. *)
Theorem C9_readiness_survives_failures roots w :
  i_state (init api Fulfilled roots w) = updateProviders roots initial ∧
  (i_ready (init api Fulfilled roots w) = true ↔
   ∀ p, p ∈ JsMap.values (providers (i_state (init api Fulfilled roots w))) →
        p_ready api p w ≠ Pending) ∧
  (∀ e, i_all (init api Fulfilled roots w) ≠ Some (Rejected e)) ∧
  (∀ e, e ∈ i_console (init api Fulfilled roots w) ↔
        ∃ p, p ∈ JsMap.values (providers (i_state (init api Fulfilled roots w))) ∧
             p_ready api p w = Rejected e).
Proof.
  simpl. set (ps := JsMap.values (providers (updateProviders roots initial))).
  assert (Hmap : map (λ provider, Promise_catch (p_ready api provider w)) ps
            = Promise_catch <$> ((λ p, p_ready api p w) <$> ps)).
  { by rewrite <- list_fmap_compose. }
  rewrite Hmap.
  destruct (Promise_all_caught ((λ p, p_ready api p w) <$> ps)) as [Hrej Hful].
  split_and!.
  - done.
  - destruct (Promise_all _) eqn:Hall.
    + split; [done|]. intros Hset. exfalso.
      assert (Forall (λ s, s ≠ Pending) ((λ p, p_ready api p w) <$> ps)) as Hall'
        by (rewrite Forall_fmap, Forall_forall; exact Hset).
      by apply Hful in Hall'.
    + split; [intros _|done]. destruct Hful as [Hful _].
      specialize (Hful eq_refl). rewrite Forall_fmap, Forall_forall in Hful.
      exact Hful.
    + by destruct (Hrej e).
  - intros e Heq. injection Heq as Heq. by apply (Hrej e).
  - intros e. rewrite console_caught, list_elem_of_fmap. naive_solver.
Qed.
End InitFacts.

(** ** The sample workspace *)

Ltac cases_in :=
  repeat match goal with
    | Hin : _ ∈ _ :: _ |- _ => apply elem_of_cons in Hin as [->|Hin]
    | Hin : _ ∈ [] |- _ => by apply elem_of_nil in Hin
    | Hin : list_elem_of _ (_ :: _) |- _ => apply elem_of_cons in Hin as [->|Hin]
    | Hin : list_elem_of _ [] |- _ => by apply elem_of_nil in Hin
    end.

Lemma C4_witness :
  JsMap.keys (providers (updateProviders [Sample.rootA] initial))
    = keyOf <$> locationsOf Sample.rootA ∧
  getProviders Sample.fileApi (updateProviders [Sample.rootA] initial)
               (Some "/root/a/src/x.ts") settingsFiles
    = [providerOf 0 Sample.rootA ".theia" "launch.json";
       providerOf 1 Sample.rootA ".theia" "settings.json"] ∧
  value (resolve Sample.fileApi (updateProviders [Sample.rootA] initial)
                 "key" (Some "/root/a/src/x.ts") settingsFiles) = VNum 1.
Proof.
  apply (C4_primary_directory_wins Sample.fileApi Sample.rootA
           "/root/a/src/x.ts" "key" settingsFiles).
  - apply (bool_decide_unpack _). vm_compute. exact I.
  - discriminate.
  - vm_compute. discriminate.
  - intros d n Hd Hn i. unfold configPaths, configFileNames in *.
    cases_in; reflexivity.
  - intros d n Hd Hn. unfold configPaths, configFileNames in *.
    cases_in; reflexivity.
  - vm_compute. discriminate.
  - reflexivity.
  - reflexivity.
  - reflexivity.
Defined.

Lemma C6_witness :
  (∀ p, p ∈ getProviders Sample.fileApi sampleRegistry (Some "/root/a/src/x.ts")
                         (siblingFiles (VNum 7)) →
        p ∈ JsMap.values (providers sampleRegistry) ∧
        0 ≤ relativityOf "/root/a/src/x.ts" p) ∧
  getProviders Sample.fileApi sampleRegistry (Some "/root/a/src/x.ts")
               (siblingFiles (VNum 7))
    = getProviders Sample.fileApi sampleRegistry (Some "/root/a/src/x.ts")
                   (siblingFiles (VStr "other")) ∧
  resolve Sample.fileApi sampleRegistry "key" (Some "/root/a/src/x.ts")
          (siblingFiles (VNum 7))
    = resolve Sample.fileApi sampleRegistry "key" (Some "/root/a/src/x.ts")
              (siblingFiles (VStr "other")).
Proof.
  apply (C6_sibling_values_do_not_leak Sample.fileApi "/root/a/src/x.ts"
           (siblingFiles (VNum 7)) (siblingFiles (VStr "other"))
           sampleRegistry "key").
  intros p Hp Hnn. vm_compute in Hp.
  cases_in; try (split; reflexivity); exfalso; vm_compute in Hnn; by apply Hnn.
Defined.

(** With a launch file in the primary directory, the write goes there and
    the settings file is not asked. *)
Example setPreference_launch_only :
  (setPreference Sample.fileApi sampleRegistry "x" (VNum 5)
                 sampleResource mergeFiles).2
  = [(providerOf 0 Sample.rootA ".theia" "launch.json", Returned true)].
Proof. by vm_compute. Qed.

(** Without a launch file, its write is invoked and returns [false]; the
    write of the settings file is invoked next and succeeds. *)
Example setPreference_falls_through :
  (setPreference Sample.fileApi sampleRegistry "x" (VNum 5)
                 sampleResource settingsFiles).2
  = [(providerOf 0 Sample.rootA ".theia" "launch.json", Returned false);
     (providerOf 1 Sample.rootA ".theia" "settings.json", Returned true)].
Proof. by vm_compute. Qed.

(** A key that only the secondary directory defines is reported as unset:
    the ranking stops at the primary directory. *)
Example resolve_no_fallback :
  resolve Sample.fileApi sampleRegistry "key" sampleResource secondaryOnlyFiles
  = emptyResult.
Proof. by vm_compute. Qed.

(** A resource outside every folder, and a missing resource. *)
Example resolve_outside :
  resolve Sample.fileApi sampleRegistry "key" (Some "/elsewhere/x.ts") settingsFiles
  = emptyResult ∧
  resolve Sample.fileApi sampleRegistry "key" None settingsFiles = emptyResult.
Proof. by vm_compute. Qed.

(** One rejected readiness does not keep the aggregate from resolving;
    one pending readiness does. *)
Example init_with_a_failing_provider :
  let w : nat → Settled :=
    λ i, if decide (i = 1%nat) then Rejected "unreadable" else Fulfilled in
  i_ready (init Sample.readyApi Fulfilled [Sample.rootA] w) = true ∧
  i_console (init Sample.readyApi Fulfilled [Sample.rootA] w) = ["unreadable"].
Proof. by vm_compute. Qed.

Example init_with_a_pending_provider :
  let w : nat → Settled :=
    λ i, if decide (i = 2%nat) then Pending else Fulfilled in
  i_ready (init Sample.readyApi Fulfilled [Sample.rootA] w) = false.
Proof. by vm_compute. Qed.

(** A folder that leaves and comes back: its four resolvers are disposed
    of when it leaves, and four new objects are made when it is back. *)
Example remove_then_add_again :
  disposed (reconcileAll [[Sample.rootB]; [Sample.rootA; Sample.rootB]]
                         sampleRegistry).2 = [0; 1; 2; 3]%nat ∧
  created (reconcileAll [[Sample.rootB]; [Sample.rootA; Sample.rootB]]
                        sampleRegistry).2 = [8; 9; 10; 11]%nat ∧
  JsMap.keys (providers (reconcileAll [[Sample.rootB]; [Sample.rootA; Sample.rootB]]
                                      sampleRegistry).1)
  = ["/root/b/.theia/launch.json"; "/root/b/.theia/settings.json";
     "/root/b/.vscode/launch.json"; "/root/b/.vscode/settings.json";
     "/root/a/.theia/launch.json"; "/root/a/.theia/settings.json";
     "/root/a/.vscode/launch.json"; "/root/a/.vscode/settings.json"].
Proof. by vm_compute. Qed.

(** ** The reconciliation, in closed form *)

Section ReconcilerExact.
Context `{UriOps}.
Implicit Types (r : Recon) (st : FoldersState)
  (t : WorkspaceFolder * string * string)
  (m : list (string * FolderPreferenceProvider)).

Lemma filter_ext_elem {A} (P Q : A → Prop)
    `{!∀ x, Decision (P x), !∀ x, Decision (Q x)} (l : list A) :
  (∀ x, x ∈ l → P x ↔ Q x) → filter P l = filter Q l.
Proof.
  induction l as [|a l IH]; intros Hext; [done|].
  rewrite !filter_cons.
  rewrite IH by (intros x Hx; apply Hext; by right).
  destruct (decide (P a)) as [Hp|Hp], (decide (Q a)) as [Hq|Hq]; try done.
  - exfalso. apply Hq. by apply (Hext a); [left|].
  - exfalso. apply Hp. by apply (Hext a); [left|].
Qed.

Lemma filter_all {A} (P : A → Prop) `{!∀ x, Decision (P x)} (l : list A) :
  (∀ x, x ∈ l → P x) → filter P l = l.
Proof.
  induction l as [|a l IH]; intros Hall; [done|].
  rewrite filter_cons_True by (apply Hall; left).
  rewrite IH; [done|]. intros x Hx. apply Hall. by right.
Qed.

Lemma filter_none {A} (P : A → Prop) `{!∀ x, Decision (P x)} (l : list A) :
  (∀ x, x ∈ l → ¬ P x) → filter P l = [].
Proof.
  induction l as [|a l IH]; intros Hall; [done|].
  rewrite filter_cons_False by (apply Hall; left).
  apply IH. intros x Hx. apply Hall. by right.
Qed.

Lemma set_delete_filter (k : string) (s : list string) :
  JsSet.delete k s = filter (λ x, x ≠ k) s.
Proof.
  induction s as [|k' s IH]; [done|]. simpl. rewrite filter_cons.
  destruct (decide (k = k')) as [->|Hne].
  - by rewrite decide_False by (by intros Hn).
  - rewrite decide_True by (by intros ->). by rewrite IH.
Qed.

Lemma map_delete_filter (k : string) m :
  JsMap.delete k m = filter (λ kp, kp.1 ≠ k) m.
Proof.
  induction m as [|[k' v] m IH]; [done|]. simpl. rewrite filter_cons. simpl.
  destruct (decide (k = k')) as [->|Hne].
  - by rewrite decide_False by (by intros Hn).
  - rewrite decide_True by (by intros ->). by rewrite IH.
Qed.

Lemma visit_toDelete r t :
  r_toDelete (visit r t) = JsSet.delete (keyOf t) (r_toDelete r).
Proof.
  destruct (JsMap.has (keyOf t) (providers (r_state r))) eqn:Hhas.
  - by rewrite visit_present.
  - by rewrite visit_absent.
Qed.

Lemma first_loop_toDelete ds r :
  r_toDelete (fold_left visit ds r)
  = filter (λ k, k ∉ keyOf <$> ds) (r_toDelete r).
Proof.
  revert r. induction ds as [|t ds IH]; intros r.
  - simpl. symmetry. apply filter_all. intros x _. apply not_elem_of_nil.
  - simpl. rewrite IH, visit_toDelete, set_delete_filter, list_filter_filter.
    apply list_filter_iff. intros x. rewrite not_elem_of_cons. tauto.
Qed.

Lemma missing_elem seen ds t :
  t ∈ missing seen ds → (keyOf t ∉ seen) ∧ t ∈ ds.
Proof.
  revert seen. induction ds as [|t' ds IH]; intros seen Hin; simpl in Hin.
  - by apply elem_of_nil in Hin.
  - destruct (decide (keyOf t' ∈ seen)) as [Hs|Hs].
    + destruct (IH seen Hin) as [? ?]. split; [done | by right].
    + apply elem_of_cons in Hin as [->|Hin]; [split; [done | left]|].
      destruct (IH _ Hin) as [Hn ?]. split; [|by right].
      intros Hk. apply Hn. apply elem_of_app. by left.
Qed.

Lemma missing_none seen ds :
  (∀ t, t ∈ ds → keyOf t ∈ seen) → missing seen ds = [].
Proof.
  induction ds as [|t ds IH]; intros Hall; [done|]. simpl.
  rewrite decide_True by (apply Hall; left).
  apply IH. intros t' Ht'. apply Hall. by right.
Qed.

Lemma build_keys n ts : (build n ts).*1 = keyOf <$> ts.
Proof.
  revert n. induction ts as [|t ts IH]; intros n; [done|].
  simpl. by rewrite IH.
Qed.

Lemma build_length n ts : length (build n ts) = length ts.
Proof.
  revert n. induction ts as [|t ts IH]; intros n; [done|].
  simpl. by rewrite IH.
Qed.

Lemma build_oids n ts : oid <$> (build n ts).*2 = seq n (length ts).
Proof.
  revert n. induction ts as [|t ts IH]; intros n; [done|].
  simpl. by rewrite IH.
Qed.

(** The first loop, from any state of the run. *)
Lemma first_loop_exact ds r :
  r_state (fold_left visit ds r) =
    {| providers := providers (r_state r)
         ++ build (allocated (r_state r))
                  (missing (JsMap.keys (providers (r_state r))) ds);
       toDispose := toDispose (r_state r)
         ++ disposablesOf (build (allocated (r_state r))
                  (missing (JsMap.keys (providers (r_state r))) ds));
       allocated := allocated (r_state r)
         + length (missing (JsMap.keys (providers (r_state r))) ds) |} ∧
  r_events (fold_left visit ds r) =
    r_events r ++ creationEvents (build (allocated (r_state r))
                    (missing (JsMap.keys (providers (r_state r))) ds)).
Proof.
  revert r. induction ds as [|t ds IH]; intros r.
  - simpl. unfold disposablesOf, creationEvents. simpl.
    rewrite !app_nil_r, Nat.add_0_r. by destruct (r_state r).
  - simpl. destruct (IH (visit r t)) as [Hst Hev]. rewrite Hst, Hev. clear Hst Hev IH.
    destruct (JsMap.has (keyOf t) (providers (r_state r))) eqn:Hhas.
    + rewrite (visit_present _ _ Hhas). simpl.
      apply has_true_iff in Hhas. by rewrite decide_True.
    + rewrite (visit_absent _ _ Hhas). simpl.
      assert (keyOf t ∉ JsMap.keys (providers (r_state r))) as Hn.
      { apply get_None_iff. by apply has_false_iff. }
      rewrite decide_False by done.
      unfold JsMap.keys. rewrite fmap_app. simpl.
      unfold disposablesOf, creationEvents. simpl.
      rewrite <- !app_assoc. simpl. split; [|done].
      f_equal. lia.
Qed.

Lemma disposeStale_providers r k :
  providers (r_state (disposeStale r k)) = JsMap.delete k (providers (r_state r)).
Proof.
  unfold disposeStale.
  destruct (JsMap.get k (providers (r_state r))) eqn:Hg; [done|].
  symmetry. apply delete_absent. by apply get_None_iff.
Qed.

Lemma second_loop_providers dl r :
  providers (r_state (fold_left disposeStale dl r))
  = filter (λ kp, kp.1 ∉ dl) (providers (r_state r)).
Proof.
  revert r. induction dl as [|k dl IH]; intros r.
  - simpl. symmetry. apply filter_all. intros x _. apply not_elem_of_nil.
  - simpl. rewrite IH, disposeStale_providers, map_delete_filter, list_filter_filter.
    apply list_filter_iff. intros x. rewrite not_elem_of_cons. tauto.
Qed.

Lemma staleEvents_entries m (P : string → Prop) `{!∀ k, Decision (P k)} :
  JsMap.wf m →
  staleEvents m (filter P (JsMap.keys m))
  = disposalEvents (filter (λ kp, P kp.1) m).
Proof.
  unfold JsMap.wf, JsMap.keys, disposalEvents.
  induction m as [|[k0 v0] m IH]; intros Hnd; [done|].
  simpl in Hnd. apply NoDup_cons in Hnd as [Hk0 Hnd].
  assert (Hrest : staleEvents ((k0, v0) :: m) (filter P m.*1)
                  = staleEvents m (filter P m.*1)).
  { apply staleEvents_ext. intros k Hk. simpl.
    apply list_elem_of_filter in Hk as [_ Hk].
    rewrite decide_False; [done|]. by intros ->. }
  rewrite fmap_cons, !filter_cons. simpl.
  destruct (decide (P k0)) as [Hp|Hp].
  - rewrite staleEvents_cons. simpl. rewrite decide_True by done.
    rewrite Hrest, IH by done. done.
  - rewrite Hrest. by apply IH.
Qed.

(** One reconciliation, in closed form: the state it leaves and what it
    does. *)
Lemma updateProviders_exact roots st :
  JsMap.wf (providers st) →
  updateProviders roots st =
    {| providers := kept roots st ++ appended roots st;
       toDispose := toDispose st ++ disposablesOf (appended roots st);
       allocated := allocated st + length (appended roots st) |} ∧
  updateProviders_events roots st =
    creationEvents (appended roots st) ++ disposalEvents (stale roots st).
Proof.
  intros Hwf.
  unfold updateProviders, updateProviders_events, updateProviders_run.
  rewrite fold_visitFolder.
  set (r0 := {| r_state := st; r_toDelete := JsMap.keys (providers st);
                r_events := [] |}).
  destruct (first_loop_exact (desired roots) r0) as [Hst Hev].
  pose proof (first_loop_toDelete (desired roots) r0) as Htd.
  set (r1 := fold_left visit (desired roots) r0) in *.
  simpl in Hst, Hev, Htd. fold (appended roots st) in Hst, Hev.
  fold (desiredKeys roots) in Htd.
  assert (Hnd : NoDup (r_toDelete r1)) by (rewrite Htd; by apply NoDup_filter).
  destruct (second_loop (r_toDelete r1) r1 Hnd) as (_ & _ & Hdisp & Hal & Hevs).
  pose proof (second_loop_providers (r_toDelete r1) r1) as Hprov.
  rewrite Hst in Hprov, Hdisp, Hal, Hevs. simpl in Hprov, Hdisp, Hal, Hevs.
  assert (Hadded : ∀ kp, kp ∈ appended roots st →
            kp.1 ∈ desiredKeys roots ∧ kp.1 ∉ JsMap.keys (providers st)).
  { intros kp Hkp.
    assert (kp.1 ∈ (appended roots st).*1) as Hk by (by apply list_elem_of_fmap_2).
    unfold appended in Hk. rewrite build_keys in Hk.
    apply list_elem_of_fmap in Hk as (t & -> & Ht).
    apply missing_elem in Ht as [Hn Ht]. split; [|done].
    unfold desiredKeys. by apply list_elem_of_fmap_2. }
  split.
  - destruct (r_state (fold_left disposeStale (r_toDelete r1) r1))
      as [provs disp al]. simpl in *. subst provs disp al.
    assert (length (appended roots st)
            = length (missing (JsMap.keys (providers st)) (desired roots))) as ->
      by apply build_length.
    f_equal. rewrite filter_app. f_equal.
    + unfold kept. apply filter_ext_elem. intros [k p] Hkp. simpl.
      rewrite Htd, list_elem_of_filter.
      assert (k ∈ JsMap.keys (providers st)) as Hk.
      { apply list_elem_of_fmap. by exists (k, p). }
      destruct (decide (k ∈ desiredKeys roots)); tauto.
    + apply filter_all. intros kp Hkp. destruct (Hadded kp Hkp) as [Hd _].
      rewrite Htd, list_elem_of_filter. tauto.
  - rewrite Hevs, Hev. simpl. f_equal.
    rewrite Htd. unfold stale.
    transitivity (staleEvents (providers st)
                    (filter (λ k, k ∉ desiredKeys roots) (JsMap.keys (providers st)))).
    + apply staleEvents_ext. intros k Hk.
      apply list_elem_of_filter in Hk as [_ Hk]. rewrite get_app.
      destruct (JsMap.get k (providers st)) eqn:Hg; [done|].
      by apply get_None_iff in Hg.
    + exact (staleEvents_entries (providers st) (λ k, k ∉ desiredKeys roots) Hwf).
Qed.

Lemma missing_NoDup seen ds : NoDup (keyOf <$> missing seen ds).
Proof.
  revert seen. induction ds as [|t ds IH]; intros seen; simpl; [constructor|].
  destruct (decide (keyOf t ∈ seen)); [apply IH|].
  rewrite fmap_cons. apply NoDup_cons. split; [|apply IH].
  intros Hin. apply list_elem_of_fmap in Hin as (t' & Heq & Ht').
  apply missing_elem in Ht' as [Hn _]. apply Hn.
  apply elem_of_app. right. rewrite Heq. left.
Qed.

Lemma desired_elem roots t :
  t ∈ desired roots →
  t.1.1 ∈ roots ∧ t.1.2 ∈ configPaths ∧ t.2 ∈ configFileNames.
Proof.
  unfold desired, locationsOf. intros Ht.
  apply list_elem_of_bind in Ht as (f & Ht & Hf).
  apply list_elem_of_bind in Ht as (d & Ht & Hd).
  apply list_elem_of_bind in Ht as (n & Ht & Hn).
  apply list_elem_of_singleton in Ht as ->. done.
Qed.

Lemma build_elem n ts k p :
  (k, p) ∈ build n ts →
  ∃ t, t ∈ ts ∧ k = keyOf t ∧
       options p = {| folder := t.1.1; configUri := configUriOf t.1.1 t.1.2 t.2 |}.
Proof.
  revert n. induction ts as [|t ts IH]; intros n Hin; simpl in Hin.
  - by apply elem_of_nil in Hin.
  - apply elem_of_cons in Hin as [Heq|Hin].
    + injection Heq as -> ->. exists t. split_and!; [left|done|done].
    + destruct (IH _ Hin) as (t' & ? & ? & ?). exists t'. split_and!; [by right|done|done].
Qed.

Lemma appended_elem roots st k p :
  (k, p) ∈ appended roots st →
  k ∈ desiredKeys roots ∧ (k ∉ JsMap.keys (providers st)) ∧
  ∃ d n, d ∈ configPaths ∧ n ∈ configFileNames ∧
         folder (options p) ∈ roots ∧
         k = keyOf (folder (options p), d, n) ∧
         configUri (options p) = configUriOf (folder (options p)) d n.
Proof.
  intros Hin. apply build_elem in Hin as (t & Ht & -> & Hopt).
  apply missing_elem in Ht as [Hn Ht].
  split_and!; [by apply list_elem_of_fmap_2 | done |].
  destruct (desired_elem roots t Ht) as (Hf & Hd & Hnm).
  destruct t as [[f d] n]. simpl in *.
  exists d, n. rewrite Hopt. simpl. done.
Qed.

(** X1. A reconciliation leaves in the registry the entries whose key is
    still desired, in the order they had, followed by the new entries; the
    new entries have pairwise different keys, all desired and none
    registered before, and their objects have the next identities of the
    factory, in order. *)
Theorem X1_kept_in_order_new_appended roots st :
  JsMap.wf (providers st) →
  providers (updateProviders roots st) = kept roots st ++ appended roots st ∧
  (∀ k p, (k, p) ∈ appended roots st →
          k ∈ desiredKeys roots ∧ (k ∉ JsMap.keys (providers st))) ∧
  NoDup ((appended roots st).*1) ∧
  oid <$> (appended roots st).*2
    = seq (allocated st) (length (appended roots st)).
Proof.
  intros Hwf. destruct (updateProviders_exact roots st Hwf) as [Hst _].
  split_and!.
  - by rewrite Hst.
  - intros k p Hin. by destruct (appended_elem roots st k p Hin) as (? & ? & _).
  - unfold appended. rewrite build_keys. apply missing_NoDup.
  - unfold appended. by rewrite build_oids, build_length.
Qed.

(** X2. What a reconciliation does, in order: for every new entry one call
    of the factory and one [set], then for every entry whose key is no
    longer desired one [delete] and one [dispose], in the order of the
    registry. Nothing is disposed of before everything new is made. *)
Theorem X2_creations_then_disposals roots st :
  JsMap.wf (providers st) →
  updateProviders_events roots st =
    creationEvents (appended roots st) ++ disposalEvents (stale roots st).
Proof. intros Hwf. by destruct (updateProviders_exact roots st Hwf) as [_ Hev]. Qed.

(** X3. A second reconciliation for the same roots changes nothing: the
    state is the same and nothing is created, stored, deleted or disposed
    of. *)
Theorem X3_reconciliation_idempotent roots st :
  JsMap.wf (providers st) →
  updateProviders roots (updateProviders roots st) = updateProviders roots st ∧
  updateProviders_events roots (updateProviders roots st) = [].
Proof.
  intros Hwf.
  pose proof (updateProviders_wf roots st Hwf) as Hwf'.
  pose proof (λ k, updateProviders_keys roots st k Hwf) as Hkeys.
  destruct (updateProviders_exact roots (updateProviders roots st) Hwf') as [Hst Hev].
  set (st1 := updateProviders roots st) in *.
  assert (Happ : appended roots st1 = []).
  { unfold appended. rewrite missing_none; [done|].
    intros t Ht. apply Hkeys. by apply list_elem_of_fmap_2. }
  assert (Hkept : kept roots st1 = providers st1).
  { unfold kept. apply filter_all. intros [k p] Hkp. simpl.
    apply Hkeys. apply list_elem_of_fmap. by exists (k, p). }
  assert (Hstale : stale roots st1 = []).
  { unfold stale. apply filter_none. intros [k p] Hkp Hn. simpl in Hn.
    apply Hn, Hkeys. apply list_elem_of_fmap. by exists (k, p). }
  split.
  - rewrite Hst, Happ, Hkept. unfold disposablesOf. simpl.
    rewrite !app_nil_r, Nat.add_0_r. by destruct st1.
  - by rewrite Hev, Happ, Hstale.
Qed.


Lemma made_for_its_key_run roots st :
  JsMap.wf (providers st) → made_for_its_key st →
  made_for_its_key (updateProviders roots st).
Proof.
  intros Hwf Hmade k p Hin.
  destruct (updateProviders_exact roots st Hwf) as [Hst _]. rewrite Hst in Hin.
  simpl in Hin. apply elem_of_app in Hin as [Hin|Hin].
  - unfold kept in Hin. apply list_elem_of_filter in Hin as [_ Hin]. by apply Hmade.
  - destruct (appended_elem roots st k p Hin) as (_ & _ & d & n & ? & ? & _ & ? & ?).
    by exists d, n.
Qed.

Lemma reachable_invariants changes st :
  registry_ok st → made_for_its_key st →
  registry_ok (reconcileAll changes st).1 ∧
  made_for_its_key (reconcileAll changes st).1.
Proof.
  revert st. induction changes as [|roots more IH]; intros st Hok Hmade; [done|].
  simpl. pose proof Hok as (Hwf & _ & _).
  specialize (IH (updateProviders roots st)
                 (updateProviders_registry_ok roots st Hok)
                 (made_for_its_key_run roots st Hwf Hmade)).
  by destruct (reconcileAll more (updateProviders roots st)).
Qed.

(** X5. Whatever the workspace does, between two reconciliations the
    registry holds no key twice and no object twice, every registered
    object came from the factory, and every registered provider was made
    for the folder, directory and file its key names. *)
Theorem X5_registry_invariants changes :
  registry_ok (reconcileAll changes initial).1 ∧
  made_for_its_key (reconcileAll changes initial).1.
Proof.
  apply reachable_invariants; [apply registry_ok_initial|].
  intros k p Hin. by apply elem_of_nil in Hin.
Qed.



End ReconcilerExact.

(** ** More on the ranking *)

Section RankingMore.
Context `{UriOps} {World : Type} (api : Collaborators World).
Implicit Types (p q : FolderPreferenceProvider)
  (ps : list FolderPreferenceProvider) (w : World).

Lemma fold_max_attained (l : list Z) (a : Z) :
  fold_left Z.max l a = a ∨ fold_left Z.max l a ∈ l.
Proof.
  induction l as [|x l IH] using rev_ind; [by left|].
  rewrite fold_max_snoc.
  destruct (Z.max_spec (fold_left Z.max l a) x) as [[_ ->]|[_ ->]].
  - right. apply elem_of_app. right. left.
  - destruct IH as [IH|IH]; [by left|]. right. apply elem_of_app. by left.
Qed.

Lemma applies_nonneg (r : string) w p :
  applies api r w p = true → 0 ≤ relativityOf r p.
Proof.
  unfold applies. destruct (p_getConfigUri api p (Some r) w); [|done].
  apply Z.leb_le.
Qed.

Lemma topLevel_nonempty (r : string) w ps p :
  p ∈ ps → applies api r w p = true → topLevel api r w ps ≠ [].
Proof.
  intros Hp Ha Hnil.
  pose proof (bestRelativity_bound api r w ps p Hp Ha) as Hb.
  pose proof (applies_nonneg r w p Ha) as Hnn.
  unfold bestRelativity in Hb.
  destruct (fold_max_attained
              (relativityOf r <$> filter (λ p, applies api r w p) ps) (-1))
    as [Heq|Hin]; [lia|].
  apply list_elem_of_fmap in Hin as (q & Hq & Hqin).
  assert (q ∈ topLevel api r w ps) as Hqt.
  { unfold topLevel. apply list_elem_of_filter. split; [|done].
    unfold bestRelativity. by rewrite Hq. }
  rewrite Hnil in Hqt. by apply elem_of_nil in Hqt.
Qed.

Lemma ranked_nil_iff (r : string) w ps :
  ranked api r w ps = [] ↔ ∀ p, p ∈ ps → applies api r w p = false.
Proof.
  split.
  - intros Hnil p Hp. destruct (applies api r w p) eqn:Ha; [|done]. exfalso.
    pose proof (topLevel_nonempty r w ps p Hp Ha) as Hne.
    unfold ranked in Hnil.
    destruct (topLevel api r w ps) as [|p0 rest]; [done|].
    rewrite filter_cons_True in Hnil by done. done.
  - intros Hall. unfold ranked, topLevel.
    rewrite (filter_none (λ p, applies api r w p)); [done|].
    intros p Hp. rewrite (Hall p Hp). by intros [].
Qed.

(** X7. [getProviders] computes this ranking: nothing without a resource;
    otherwise, of the registered providers that govern the resource and
    whose folder encloses it, those at the greatest relativity, and of
    these the ones that share the configuration directory of the first,
    in the order of the registry. *)
Theorem X7_getProviders_computes_ranking st (r : option string) w :
  getProviders api st r w =
    match r with
    | None => []
    | Some r' =>
        if decide (r' = "") then []
        else ranked api r' w (JsMap.values (providers st))
    end.
Proof.
  destruct r as [r'|]; [|done].
  destruct (decide (r' = "")) as [->|Hr]; [done|].
  by apply getProviders_ranked.
Qed.

(** X8. The ranked providers are a sublist of the registered providers:
    the ranking invents no provider, repeats none and keeps the order of
    the registry. *)
Theorem X8_ranking_is_sublist_of_registry st (r : option string) w :
  getProviders api st r w `sublist_of` JsMap.values (providers st).
Proof.
  destruct r as [r'|]; [|apply sublist_nil_l].
  destruct (decide (r' = "")) as [->|Hr]; [apply sublist_nil_l|].
  rewrite getProviders_ranked by done. unfold ranked.
  destruct (topLevel api r' w (JsMap.values (providers st))) as [|p0 rest] eqn:Ht;
    [apply sublist_nil_l|].
  rewrite <- Ht. unfold topLevel.
  etrans; [apply sublist_filter|]. etrans; apply sublist_filter.
Qed.

(** X9. No registered provider that applies to the resource has a greater
    relativity than the ranked providers: the folder with the greatest
    relativity wins. *)
Theorem X9_ranked_have_greatest_relativity st (r : string) w p q :
  q ∈ getProviders api st (Some r) w →
  p ∈ JsMap.values (providers st) →
  applies api r w p = true →
  relativityOf r p ≤ relativityOf r q.
Proof.
  intros Hq Hp Ha.
  destruct (decide (r = "")) as [->|Hr]; [by apply elem_of_nil in Hq|].
  rewrite getProviders_ranked in Hq by done.
  apply ranked_unfold in Hq as (_ & _ & -> & _).
  by apply bestRelativity_bound.
Qed.

(** X10. The ranking of a resource is empty exactly when the resource is
    the empty string or no registered provider applies to it (none that
    governs it has a folder that encloses it). *)
Theorem X10_empty_ranking_iff st (r : string) w :
  getProviders api st (Some r) w = [] ↔
  r = "" ∨ ∀ p, p ∈ JsMap.values (providers st) → applies api r w p = false.
Proof.
  destruct (decide (r = "")) as [->|Hr].
  - split; [by left | done].
  - rewrite getProviders_ranked, ranked_nil_iff by done. split; [by right|].
    by intros [?|?].
Qed.
End RankingMore.

(** ** More on the queries *)

Section QueryMore.
Context `{UriOps} {World : Type} (api : Collaborators World).
Implicit Types (p : FolderPreferenceProvider) (ps : list FolderPreferenceProvider)
  (w : World) (r : option string).

(** The loop of [setPreference], by how it ends. *)
Lemma setPreference_loop_outcome ps name v r w calls :
  ∃ invoked,
    (setPreference_loop api ps name v r w calls).2 = calls ++ invoked ∧
    ((setPreference_loop api ps name v r w calls).1.1 = Returned false ↔
     invoked.*1 = ps ∧ Forall (λ c, c.2 = Returned false) invoked) ∧
    (∀ e, (setPreference_loop api ps name v r w calls).1.1 = Threw e ↔
          ∃ pre p, invoked = pre ++ [(p, Threw e)]) ∧
    (setPreference_loop api ps name v r w calls).1.2
      = fold_left (λ w' c, (p_setPreference api c.1 name v r w').2) invoked w.
Proof.
  revert w calls. induction ps as [|p ps IH]; intros w calls.
  - exists []. simpl. rewrite app_nil_r. split_and!; [done|done| |done].
    intros e. split; [done|]. intros (pre & p & Heq). by destruct pre.
  - simpl. destruct (p_setPreference api p name v r w) as [o w'] eqn:Hw.
    destruct o as [[|]|e0].
    + exists [(p, Returned true)]. simpl. rewrite Hw. simpl.
      split_and!; [done| | |done].
      * split; [done|]. intros [_ Hall]. by inversion Hall.
      * intros e. split; [done|]. intros (pre & q & Heq).
        destruct pre as [|x pre]; simpl in Heq; [by injection Heq|].
        injection Heq as _ Heq. by destruct pre.
    + destruct (IH w' (calls ++ [(p, Returned false)]))
        as (invoked & Hc & Hfalse & Hthrew & Hworld).
      exists ((p, Returned false) :: invoked). rewrite fmap_cons.
      cbn [fold_left fst snd]. rewrite Hw. cbn [snd].
      split_and!.
      * rewrite Hc. by rewrite <- app_assoc.
      * rewrite Hfalse. split.
        { intros [-> Hall]. split; [done | by constructor]. }
        intros [Heq Hall]. injection Heq as Heq. split; [done | by inversion Hall].
      * intros e. rewrite Hthrew. split.
        { intros (pre & q & ->). by exists ((p, Returned false) :: pre), q. }
        intros (pre & q & Heq). destruct pre as [|x pre]; simpl in Heq.
        { by injection Heq. }
        injection Heq as _ Heq. by exists pre, q.
      * done.
    + exists [(p, Threw e0)]. simpl. rewrite Hw. simpl.
      split_and!; [done| | |done].
      * split; [done|]. intros [_ Hall]. by inversion Hall.
      * intros e. split.
        { intros [= ->]. by exists [], p. }
        intros (pre & q & Heq).
        destruct pre as [|x pre]; simpl in Heq; [by injection Heq as _ ->|].
        injection Heq as _ Heq. by destruct pre.
Qed.

(** X11. [setPreference] returns [false] exactly when the write of every
    ranked resolver was invoked and every one returned [false]; it fails
    with an exception exactly when the last write it invoked threw it, in
    which case the remaining resolvers are not tried. The world it leaves
    is the one the invoked writes leave, one after the other. *)
Theorem X11_setPreference_failure_and_exception st name v r w :
  ((setPreference api st name v r w).1.1 = Returned false ↔
   (setPreference api st name v r w).2.*1 = getProviders api st r w ∧
   Forall (λ c, c.2 = Returned false) (setPreference api st name v r w).2) ∧
  (∀ e, (setPreference api st name v r w).1.1 = Threw e ↔
        ∃ pre p, (setPreference api st name v r w).2 = pre ++ [(p, Threw e)]) ∧
  (setPreference api st name v r w).1.2
    = fold_left (λ w' c, (p_setPreference api c.1 name v r w').2)
                (setPreference api st name v r w).2 w.
Proof.
  unfold setPreference.
  destruct (setPreference_loop_outcome (getProviders api st r w) name v r w [])
    as (invoked & Hc & Hfalse & Hthrew & Hworld).
  simpl in Hc. by rewrite Hc.
Qed.

(** X12. For a resource to which no registered provider applies (a
    resource outside every folder), every query answers with nothing and
    without an error: the ranking is empty, [resolve] gives the empty
    result, [getPreferences] the empty object, and [setPreference]
    returns [false] without invoking a write. *)
Theorem X12_resource_outside_every_folder st (r : string) name v w :
  (∀ p, p ∈ JsMap.values (providers st) → applies api r w p = false) →
  getProviders api st (Some r) w = [] ∧
  resolve api st name (Some r) w = emptyResult ∧
  getPreferences api st (Some r) w = ∅ ∧
  setPreference api st name v (Some r) w = (Returned false, w, []).
Proof.
  intros Hall.
  assert (Hnil : getProviders api st (Some r) w = []).
  { destruct (decide (r = "")) as [->|Hr]; [done|].
    rewrite getProviders_ranked by done. by apply ranked_nil_iff. }
  unfold resolve, getPreferences, setPreference. by rewrite Hnil.
Qed.
End QueryMore.

(** ** A single folder, again *)

Section OneFolderMore.
Context `{UriOps} {World : Type} (api : Collaborators World).
Variable f : WorkspaceFolder.
Variable Path_name : Path → string.

(** The ranking in a workspace whose single folder encloses the resource:
    the two providers of the primary directory. *)
Lemma single_folder_ranking (r : string) (w : World) :
  NoDup (keyOf <$> locationsOf f) →
  r ≠ "" →
  0 ≤ Path_relativity (URI_path (URI_new (uri f))) (URI_path (URI_new r)) →
  (∀ d n, d ∈ configPaths → n ∈ configFileNames → ∀ i,
     p_getConfigUri api (providerOf i f d n) (Some r) w
       = Some (configUriOf f d n)) →
  (∀ d n, d ∈ configPaths → n ∈ configFileNames →
     URI_toString (URI_parent (configUriOf f d n))
       = URI_toString (URI_resolve (URI_new (uri f)) d)) →
  URI_toString (URI_resolve (URI_new (uri f)) ".theia")
    ≠ URI_toString (URI_resolve (URI_new (uri f)) ".vscode") →
  getProviders api (updateProviders [f] initial) (Some r) w
    = [providerOf 0 f ".theia" "launch.json";
       providerOf 1 f ".theia" "settings.json"].
Proof.
  intros Hnd Hr Henc Hcfg Hpar Hdirs.
  pose proof (updateProviders_single f Hnd) as Hreg.
  assert (Hth : ".theia" ∈ configPaths) by left.
  assert (Hvc : ".vscode" ∈ configPaths) by (right; left).
  assert (Hla : "launch.json" ∈ configFileNames) by left.
  assert (Hse : "settings.json" ∈ configFileNames) by (right; left).
  assert (Happ : ∀ d n i, d ∈ configPaths → n ∈ configFileNames →
            applies api r w (providerOf i f d n) = true).
  { intros d n i Hd Hn. unfold applies. rewrite (Hcfg d n Hd Hn i).
    by apply Z.leb_le. }
  assert (Hgrp : ∀ d n i, d ∈ configPaths → n ∈ configFileNames →
            groupKey api r w (providerOf i f d n)
              = URI_toString (URI_resolve (URI_new (uri f)) d)).
  { intros d n i Hd Hn. unfold groupKey. rewrite (Hcfg d n Hd Hn i).
    by apply Hpar. }
  rewrite getProviders_ranked by done. rewrite Hreg. simpl.
  set (R := Path_relativity (URI_path (URI_new (uri f))) (URI_path (URI_new r))) in *.
  set (tl := providerOf 0 f ".theia" "launch.json") in *.
  set (ts := providerOf 1 f ".theia" "settings.json") in *.
  set (vl := providerOf 2 f ".vscode" "launch.json") in *.
  set (vs := providerOf 3 f ".vscode" "settings.json") in *.
  assert (Hflt : filter (λ p, applies api r w p) [tl; ts; vl; vs] = [tl; ts; vl; vs]).
  { apply filter_all. intros p Hp.
    repeat (apply elem_of_cons in Hp as [->|Hp]); [..|by apply elem_of_nil in Hp];
      unfold tl, ts, vl, vs; by rewrite Happ. }
  assert (Hbest : bestRelativity api r w [tl; ts; vl; vs] = R).
  { unfold bestRelativity. rewrite Hflt. simpl.
    unfold relativityOf, folderUri. simpl. fold R. lia. }
  assert (Htop : topLevel api r w [tl; ts; vl; vs] = [tl; ts; vl; vs]).
  { unfold topLevel. rewrite Hflt, Hbest. by rewrite !filter_cons_True by done. }
  unfold ranked. rewrite Htop.
  rewrite filter_cons_True by done.
  rewrite filter_cons_True by (unfold tl, ts; by rewrite !Hgrp).
  rewrite filter_cons_False
    by (unfold tl, vl; rewrite !Hgrp by done; intros Heq; by apply Hdirs).
  rewrite filter_cons_False
    by (unfold tl, vs; rewrite !Hgrp by done; intros Heq; by apply Hdirs).
  done.
Qed.

(** X13. In a workspace whose single folder encloses the resource, only
    the two files of the primary directory are consulted: [resolve]
    answers what the launch file answers when that has a value, else what
    the settings file answers when that has one, else nothing;
    [getPreferences] is the settings file's object overwritten by the
    launch file's; and [setPreference] invokes the write of the launch
    file first and of no file of the secondary directory. *)
Theorem X13_single_folder_consults_primary_directory_only
    (r name : string) (v : Value) (w : World) :
  NoDup (keyOf <$> locationsOf f) →
  r ≠ "" →
  0 ≤ Path_relativity (URI_path (URI_new (uri f))) (URI_path (URI_new r)) →
  (∀ d n, d ∈ configPaths → n ∈ configFileNames → ∀ i,
     p_getConfigUri api (providerOf i f d n) (Some r) w
       = Some (configUriOf f d n)) →
  (∀ d n, d ∈ configPaths → n ∈ configFileNames →
     URI_toString (URI_parent (configUriOf f d n))
       = URI_toString (URI_resolve (URI_new (uri f)) d)) →
  URI_toString (URI_resolve (URI_new (uri f)) ".theia")
    ≠ URI_toString (URI_resolve (URI_new (uri f)) ".vscode") →
  resolve api (updateProviders [f] initial) name (Some r) w =
    (if isDefined (value (p_resolve api (providerOf 0 f ".theia" "launch.json")
                                    name (Some r) w))
     then p_resolve api (providerOf 0 f ".theia" "launch.json") name (Some r) w
     else if isDefined (value (p_resolve api (providerOf 1 f ".theia" "settings.json")
                                         name (Some r) w))
     then p_resolve api (providerOf 1 f ".theia" "settings.json") name (Some r) w
     else emptyResult) ∧
  getPreferences api (updateProviders [f] initial) (Some r) w =
    p_getPreferences api (providerOf 0 f ".theia" "launch.json") w
    ∪ p_getPreferences api (providerOf 1 f ".theia" "settings.json") w ∧
  (setPreference api (updateProviders [f] initial) name v (Some r) w).2.*1
    `prefix_of` [providerOf 0 f ".theia" "launch.json";
                 providerOf 1 f ".theia" "settings.json"].
Proof.
  intros Hnd Hr Henc Hcfg Hpar Hdirs.
  pose proof (single_folder_ranking r w Hnd Hr Henc Hcfg Hpar Hdirs) as Hrank.
  split_and!.
  - unfold resolve. rewrite Hrank. simpl.
    destruct (p_resolve api (providerOf 0 f ".theia" "launch.json") name (Some r) w)
      as [v0 u0].
    destruct (p_resolve api (providerOf 1 f ".theia" "settings.json") name (Some r) w)
      as [v1 u1].
    simpl. by destruct (isDefined v0), (isDefined v1).
  - unfold getPreferences. rewrite Hrank. simpl. unfold Object_assign.
    by rewrite (right_id_L ∅ (∪)).
  - unfold setPreference.
    destruct (setPreference_loop_calls api
                (getProviders api (updateProviders [f] initial) (Some r) w)
                name v (Some r) w []) as (invoked & Hc & Hpre & _).
    rewrite app_nil_l in Hc. rewrite Hc. by rewrite <- Hrank.
Qed.

(** The loop of [getConfigUri] answers with the first provider that
    answers with a settings file. *)
Lemma getConfigUri_loop_first ps (r : option string) (w : World) :
  (∃ pre p post c,
     ps = pre ++ p :: post ∧
     p_getConfigUri api p r w = Some c ∧
     Path_name (URI_path c) = "settings" ∧
     Forall (λ q, ∀ c', p_getConfigUri api q r w = Some c' →
                        Path_name (URI_path c') ≠ "settings") pre ∧
     getConfigUri_loop api Path_name ps r w = Some c) ∨
  (Forall (λ q, ∀ c', p_getConfigUri api q r w = Some c' →
                      Path_name (URI_path c') ≠ "settings") ps ∧
   getConfigUri_loop api Path_name ps r w = None).
Proof.
  induction ps as [|p ps IH]; simpl.
  - right. by split.
  - destruct (p_getConfigUri api p r w) as [c|] eqn:Hc.
    + destruct (decide (Path_name (URI_path c) = "settings")) as [Hs|Hs].
      * left. exists [], p, ps, c. by split_and!.
      * destruct IH as [(pre & q & post & c' & -> & Hq & Hn & Hpre & Hres)|[Hall Hres]].
        { left. exists (p :: pre), q, post, c'. split_and!; try done.
          constructor; [|done]. intros c0 Hc0. rewrite Hc in Hc0. by injection Hc0 as <-. }
        right. split; [|done]. constructor; [|done].
        intros c0 Hc0. rewrite Hc in Hc0. by injection Hc0 as <-.
    + destruct IH as [(pre & q & post & c' & -> & Hq & Hn & Hpre & Hres)|[Hall Hres]].
      * left. exists (p :: pre), q, post, c'. split_and!; try done.
        constructor; [|done]. intros c0 Hc0. by rewrite Hc in Hc0.
      * right. split; [|done]. constructor; [|done].
        intros c0 Hc0. by rewrite Hc in Hc0.
Qed.

(** X14. [getConfigUri] goes through all registered providers in the
    order of the registry, whatever the ranking, and answers with the
    configuration URI of the first one that governs the resource and whose
    URI names a settings file; it answers with nothing when there is no
    such provider. *)
Theorem X14_getConfigUri_first_settings_file st (r : option string) (w : World) :
  (∃ pre p post c,
     JsMap.values (providers st) = pre ++ p :: post ∧
     p_getConfigUri api p r w = Some c ∧
     Path_name (URI_path c) = "settings" ∧
     Forall (λ q, ∀ c', p_getConfigUri api q r w = Some c' →
                        Path_name (URI_path c') ≠ "settings") pre ∧
     getConfigUri api Path_name st r w = Some c) ∨
  (Forall (λ q, ∀ c', p_getConfigUri api q r w = Some c' →
                      Path_name (URI_path c') ≠ "settings")
          (JsMap.values (providers st)) ∧
   getConfigUri api Path_name st r w = None).
Proof. apply getConfigUri_loop_first. Qed.

(** X15. In a workspace with the single folder [f], when the provider of
    the launch file of the primary directory does not answer with a
    settings file and the provider of its settings file does,
    [getConfigUri] answers with the latter, with or without a resource. *)
Theorem X15_getConfigUri_primary_settings (r : option string) (w : World) (c : URI) :
  NoDup (keyOf <$> locationsOf f) →
  (∀ c', p_getConfigUri api (providerOf 0 f ".theia" "launch.json") r w = Some c' →
         Path_name (URI_path c') ≠ "settings") →
  p_getConfigUri api (providerOf 1 f ".theia" "settings.json") r w = Some c →
  Path_name (URI_path c) = "settings" →
  getConfigUri api Path_name (updateProviders [f] initial) r w = Some c.
Proof.
  intros Hnd Hlaunch Hsettings Hname.
  unfold getConfigUri. rewrite (updateProviders_single f Hnd). simpl.
  destruct (p_getConfigUri api (providerOf 0 f ".theia" "launch.json") r w)
    as [c'|] eqn:Hc'.
  - rewrite decide_False by (by apply Hlaunch).
    rewrite Hsettings. by rewrite decide_True.
  - rewrite Hsettings. by rewrite decide_True.
Qed.
End OneFolderMore.

(** ** More on the start-up *)

Section InitMore.
Context `{UriOps} {World : Type} (api : Collaborators World).




End InitMore.

(** ** The sample workspace, again *)

Lemma X1_witness :
  providers (updateProviders [Sample.rootB; Sample.rootA] sampleRegistry)
    = kept [Sample.rootB; Sample.rootA] sampleRegistry
      ++ appended [Sample.rootB; Sample.rootA] sampleRegistry ∧
  (∀ k p, (k, p) ∈ appended [Sample.rootB; Sample.rootA] sampleRegistry →
          k ∈ desiredKeys [Sample.rootB; Sample.rootA] ∧
          (k ∉ JsMap.keys (providers sampleRegistry))) ∧
  NoDup ((appended [Sample.rootB; Sample.rootA] sampleRegistry).*1) ∧
  oid <$> (appended [Sample.rootB; Sample.rootA] sampleRegistry).*2
    = seq (allocated sampleRegistry)
          (length (appended [Sample.rootB; Sample.rootA] sampleRegistry)).
Proof.
  apply (X1_kept_in_order_new_appended [Sample.rootB; Sample.rootA] sampleRegistry).
  exact (proj1 sampleRegistry_ok).
Defined.

Lemma X2_witness :
  updateProviders_events [Sample.rootB] sampleRegistry =
    creationEvents (appended [Sample.rootB] sampleRegistry)
    ++ disposalEvents (stale [Sample.rootB] sampleRegistry).
Proof.
  apply (X2_creations_then_disposals [Sample.rootB] sampleRegistry).
  exact (proj1 sampleRegistry_ok).
Defined.

Lemma X3_witness :
  updateProviders [Sample.rootB] (updateProviders [Sample.rootB] sampleRegistry)
    = updateProviders [Sample.rootB] sampleRegistry ∧
  updateProviders_events [Sample.rootB]
    (updateProviders [Sample.rootB] sampleRegistry) = [].
Proof.
  apply (X3_reconciliation_idempotent [Sample.rootB] sampleRegistry).
  exact (proj1 sampleRegistry_ok).
Defined.


Lemma X9_witness :
  relativityOf "/root/a/src/x.ts" (providerOf 1 Sample.rootA ".theia" "settings.json")
  ≤ relativityOf "/root/a/src/x.ts" (providerOf 0 Sample.rootA ".theia" "launch.json").
Proof.
  apply (X9_ranked_have_greatest_relativity Sample.fileApi sampleRegistry
           "/root/a/src/x.ts" settingsFiles).
  - vm_compute. left.
  - vm_compute. right. left.
  - reflexivity.
Defined.

Lemma X12_witness :
  getProviders Sample.fileApi sampleRegistry (Some "/elsewhere/x.ts") settingsFiles = [] ∧
  resolve Sample.fileApi sampleRegistry "key" (Some "/elsewhere/x.ts") settingsFiles
    = emptyResult ∧
  getPreferences Sample.fileApi sampleRegistry (Some "/elsewhere/x.ts") settingsFiles = ∅ ∧
  setPreference Sample.fileApi sampleRegistry "key" (VNum 5)
                (Some "/elsewhere/x.ts") settingsFiles
    = (Returned false, settingsFiles, []).
Proof.
  apply (X12_resource_outside_every_folder Sample.fileApi sampleRegistry
           "/elsewhere/x.ts" "key" (VNum 5) settingsFiles).
  intros p Hp. vm_compute in Hp. cases_in; reflexivity.
Defined.

Lemma X13_witness :
  resolve Sample.fileApi (updateProviders [Sample.rootA] initial) "key"
          (Some "/root/a/src/x.ts") SampleMore.launchFiles =
    (if isDefined (value (p_resolve Sample.fileApi
                            (providerOf 0 Sample.rootA ".theia" "launch.json")
                            "key" (Some "/root/a/src/x.ts") SampleMore.launchFiles))
     then p_resolve Sample.fileApi (providerOf 0 Sample.rootA ".theia" "launch.json")
                    "key" (Some "/root/a/src/x.ts") SampleMore.launchFiles
     else if isDefined (value (p_resolve Sample.fileApi
                                 (providerOf 1 Sample.rootA ".theia" "settings.json")
                                 "key" (Some "/root/a/src/x.ts") SampleMore.launchFiles))
     then p_resolve Sample.fileApi (providerOf 1 Sample.rootA ".theia" "settings.json")
                    "key" (Some "/root/a/src/x.ts") SampleMore.launchFiles
     else emptyResult) ∧
  getPreferences Sample.fileApi (updateProviders [Sample.rootA] initial)
                 (Some "/root/a/src/x.ts") SampleMore.launchFiles =
    p_getPreferences Sample.fileApi (providerOf 0 Sample.rootA ".theia" "launch.json")
                     SampleMore.launchFiles
    ∪ p_getPreferences Sample.fileApi (providerOf 1 Sample.rootA ".theia" "settings.json")
                       SampleMore.launchFiles ∧
  (setPreference Sample.fileApi (updateProviders [Sample.rootA] initial) "key" (VNum 5)
                 (Some "/root/a/src/x.ts") SampleMore.launchFiles).2.*1
    `prefix_of` [providerOf 0 Sample.rootA ".theia" "launch.json";
                 providerOf 1 Sample.rootA ".theia" "settings.json"].
Proof.
  apply (X13_single_folder_consults_primary_directory_only Sample.fileApi Sample.rootA
           "/root/a/src/x.ts" "key" (VNum 5) SampleMore.launchFiles).
  - apply (bool_decide_unpack _). vm_compute. exact I.
  - discriminate.
  - vm_compute. discriminate.
  - intros d n Hd Hn i. unfold configPaths, configFileNames in *.
    cases_in; reflexivity.
  - intros d n Hd Hn. unfold configPaths, configFileNames in *.
    cases_in; reflexivity.
  - vm_compute. discriminate.
Defined.

Lemma X15_witness :
  getConfigUri Sample.fileApi SampleMore.pathName
               (updateProviders [Sample.rootA] initial) None ∅
    = Some (configUriOf Sample.rootA ".theia" "settings.json").
Proof.
  apply (X15_getConfigUri_primary_settings Sample.fileApi Sample.rootA
           SampleMore.pathName None ∅).
  - apply (bool_decide_unpack _). vm_compute. exact I.
  - intros c' Hc'. vm_compute in Hc'. injection Hc' as <-. vm_compute. discriminate.
  - reflexivity.
  - reflexivity.
Defined.


(** A write that throws ends the call: the settings file is not tried. *)
Example setPreference_exception_aborts :
  let w : nat → WriteOutcome :=
    λ i, if decide (i = 0%nat) then Threw "disk full" else Returned true in
  (setPreference SampleMore.writeApi sampleRegistry "x" (VNum 5) sampleResource w).1.1
    = Threw "disk full" ∧
  (setPreference SampleMore.writeApi sampleRegistry "x" (VNum 5) sampleResource w).2.*1
    = [providerOf 0 Sample.rootA ".theia" "launch.json"].
Proof. by vm_compute. Qed.

(** With the launch value 10 and the settings value 20, the launch file
    wins. *)
Example resolve_launch_wins :
  value (resolve Sample.fileApi (updateProviders [Sample.rootA] initial) "key"
                 sampleResource SampleMore.launchFiles) = VNum 10.
Proof. by vm_compute. Qed.

(** The write target is found without a resource, where the ranking is
    empty. *)
Example getConfigUri_without_resource :
  getConfigUri Sample.fileApi SampleMore.pathName sampleRegistry None ∅
    = Some ["root"; "a"; ".theia"; "settings.json"] ∧
  getProviders Sample.fileApi sampleRegistry None ∅ = [].
Proof. by vm_compute. Qed.

(** ** Growth of the registry *)

Section Growth.
Context `{UriOps} {World : Type} (api : Collaborators World).

Lemma missing_all seen (ds : list (WorkspaceFolder * string * string)) :
  NoDup (keyOf <$> ds) →
  (∀ t, t ∈ ds → keyOf t ∉ seen) →
  missing seen ds = ds.
Proof.
  revert seen. induction ds as [|t ds IH]; intros seen Hnd Hnew; [done|].
  rewrite fmap_cons in Hnd. apply NoDup_cons in Hnd as [Ht Hnd]. simpl.
  rewrite decide_False by (apply Hnew; left). f_equal.
  apply IH; [done|]. intros t' Ht' Hin.
  apply elem_of_app in Hin as [Hin|Hin].
  - by apply (Hnew t'); [right|].
  - apply list_elem_of_singleton in Hin. apply Ht. rewrite <- Hin.
    by apply list_elem_of_fmap_2.
Qed.

(** X18. When every registered key is still desired (folders were only
    added), a reconciliation leaves every entry where it is, appends the
    new ones, and deletes and disposes of nothing. *)
Theorem X18_adding_folders_only_appends roots st :
  JsMap.wf (providers st) →
  (∀ k, k ∈ JsMap.keys (providers st) → k ∈ desiredKeys roots) →
  providers (updateProviders roots st) = providers st ++ appended roots st ∧
  updateProviders_events roots st = creationEvents (appended roots st).
Proof.
  intros Hwf Hall. destruct (updateProviders_exact roots st Hwf) as [Hst Hev].
  assert (Hkept : kept roots st = providers st).
  { unfold kept. apply filter_all. intros [k p] Hkp. simpl.
    apply Hall. apply list_elem_of_fmap. by exists (k, p). }
  assert (Hstale : stale roots st = []).
  { unfold stale. apply filter_none. intros [k p] Hkp Hn. simpl in Hn.
    apply Hn, Hall. apply list_elem_of_fmap. by exists (k, p). }
  rewrite Hst, Hev, Hkept, Hstale. unfold disposalEvents. simpl.
  by rewrite app_nil_r.
Qed.

(** X19. The first reconciliation registers the locations in the order of
    the loops (folder by folder, the primary directory before the
    secondary one, the launch file before the settings file), when these
    have pairwise different keys: the keys of the registry are the desired
    keys in that order, with the objects 0, 1, 2, ... of the factory. *)
Theorem X19_first_reconciliation_order roots :
  NoDup (desiredKeys roots) →
  JsMap.keys (providers (updateProviders roots initial)) = desiredKeys roots ∧
  oid <$> JsMap.values (providers (updateProviders roots initial))
    = seq 0 (4 * length roots) ∧
  providers (updateProviders roots initial) = build 0 (desired roots).
Proof.
  intros Hnd.
  assert (Hwf : JsMap.wf (providers initial)) by apply NoDup_nil_2.
  destruct (updateProviders_exact roots initial Hwf) as [Hst _].
  assert (Hprov : providers (updateProviders roots initial) = build 0 (desired roots)).
  { rewrite Hst. simpl. unfold appended. simpl.
    rewrite missing_all; [done|done|]. intros t _. apply not_elem_of_nil. }
  rewrite Hprov. unfold JsMap.keys, JsMap.values.
  rewrite build_keys, build_oids, length_desired. done.
Qed.

(** X20. [resolve] never answers with [null] or with an [undefined] that
    carries a configuration URI: its value is a defined one, or the
    result is the empty result. *)
Theorem X20_resolve_defined_or_empty st name (r : option string) (w : World) :
  isDefined (value (resolve api st name r w)) = true ∨
  resolve api st name r w = emptyResult.
Proof.
  unfold resolve.
  destruct (resolve_loop_first api (getProviders api st r w) name r w)
    as [(pre & p & post & _ & _ & Hd & ->)|[_ ->]]; [by left | by right].
Qed.
End Growth.

Lemma X18_witness :
  providers (updateProviders [Sample.rootA; Sample.rootB]
                             (updateProviders [Sample.rootA] initial))
    = providers (updateProviders [Sample.rootA] initial)
      ++ appended [Sample.rootA; Sample.rootB] (updateProviders [Sample.rootA] initial) ∧
  updateProviders_events [Sample.rootA; Sample.rootB]
                         (updateProviders [Sample.rootA] initial)
    = creationEvents (appended [Sample.rootA; Sample.rootB]
                               (updateProviders [Sample.rootA] initial)).
Proof.
  apply (X18_adding_folders_only_appends [Sample.rootA; Sample.rootB]
           (updateProviders [Sample.rootA] initial)).
  - apply updateProviders_wf, NoDup_nil_2.
  - intros k Hk. vm_compute in Hk. vm_compute. cases_in; repeat constructor.
Defined.

Lemma X19_witness :
  JsMap.keys (providers (updateProviders [Sample.rootA; Sample.rootB] initial))
    = desiredKeys [Sample.rootA; Sample.rootB] ∧
  oid <$> JsMap.values (providers (updateProviders [Sample.rootA; Sample.rootB] initial))
    = seq 0 (4 * length [Sample.rootA; Sample.rootB]) ∧
  providers (updateProviders [Sample.rootA; Sample.rootB] initial)
    = build 0 (desired [Sample.rootA; Sample.rootB]).
Proof.
  apply (X19_first_reconciliation_order [Sample.rootA; Sample.rootB]).
  apply (bool_decide_unpack _). vm_compute. exact I.
Defined.
